(** * PrivacyGuard, python_pii_service/main.py

    A shallow embedding of the PII detection service: the finding record,
    the consolidation of overlapping findings, the placeholder anonymizer,
    the single-engine and hybrid endpoints and the benchmark endpoint.

    Python values are modelled as follows: [int] is [Z], [float] is the
    kernel's binary64 [float] with its IEEE comparisons, [str] is [string],
    a [dict] is a [gmap], a [list] is a [list], a raised exception is the
    [Raise] case of an error monad. *)

From Stdlib Require Import ZArith String Ascii Floats.
From stdpp Require Import gmap strings list sorting.

Local Open Scope string_scope.
Local Open Scope Z_scope.

#[local] Set Warnings "-inexact-float,-clear-no-such-hyp".


(** ** Python values that travel through the service *)

(** The values stored under [Dict[str, Any]]. *)
Inductive PyVal :=
| PyNone
| PyStr (s : string)
| PyInt (z : Z)
| PyFloat (f : float).

(** [x == y] on two floats, as the containers evaluate it: the comparison
    of a container starts with an identity test, so a value always equals
    itself, NaN included. *)
Definition float_same (x y : float) : bool :=
  (x =? y)%float || (PrimFloat.is_nan x && PrimFloat.is_nan y).

(** The exact integer value of a float, when it has one. *)
Definition float_integral (f : float) : option Z :=
  match Prim2SF f with
  | S754_zero _ => Some 0
  | S754_finite s m e =>
      let mag :=
        if 0 <=? e then Some (Z.pos m * 2 ^ e)
        else if (Z.pos m) mod (2 ^ (- e)) =? 0 then Some (Z.pos m / 2 ^ (- e))
        else None in
      (fun v => if s then - v else v) <$> mag
  | _ => None
  end.

Definition pyval_eqb (a b : PyVal) : bool :=
  match a, b with
  | PyNone, PyNone => true
  | PyStr s, PyStr t => String.eqb s t
  | PyInt x, PyInt y => x =? y
  | PyFloat x, PyFloat y => float_same x y
  | PyInt x, PyFloat y | PyFloat y, PyInt x =>
      match float_integral y with Some v => x =? v | None => false end
  | _, _ => false
  end.

(** ** Data model *)

(** [class PIIFinding(BaseModel)]. [end] is a keyword, hence [end_]. *)
Record PIIFinding := {
  entity_type : string;
  start : Z;
  end_ : Z;
  score : float;
  text : string;
  analysis_explanation : option (gmap string PyVal)
}.

(** [class PIIAnalysisResult(BaseModel)]. *)
Record PIIAnalysisResult := {
  findings : list PIIFinding;
  anonymized_text : string;
  processing_engine : string
}.

(** [class PIIDetectionConfig(BaseModel)]. *)
Record PIIDetectionConfig := {
  engine : string;
  confidence_threshold : float;
  entities : list string;
  language : string
}.

(** [PIIDetectionConfig()], the field defaults. *)
Definition default_config : PIIDetectionConfig :=
  {| engine := "presidio"; confidence_threshold := 0.5%float;
     entities := []; language := "en" |}.

(** [class AnalysisRequest(BaseModel)]. *)
Record AnalysisRequest := {
  req_text : string;
  req_config : option PIIDetectionConfig
}.

(** [class BenchmarkRequest(BaseModel)]. *)
Record BenchmarkRequest := { bench_text : string }.

(** ** Equality of findings

    [list.remove] compares with [==]; on two models of the same class
    pydantic compares the field dictionaries. *)

Definition dict_same (d1 d2 : gmap string PyVal) : Prop :=
  map_relation (λ _ v1 v2, pyval_eqb v1 v2 = true) (λ _ _, False) (λ _ _, False) d1 d2.

Definition explanation_eqb (e1 e2 : option (gmap string PyVal)) : bool :=
  match e1, e2 with
  | None, None => true
  | Some d1, Some d2 => bool_decide (dict_same d1 d2)
  | _, _ => false
  end.

Definition finding_eqb (a b : PIIFinding) : bool :=
  String.eqb (entity_type a) (entity_type b)
  && (start a =? start b)
  && (end_ a =? end_ b)
  && float_same (score a) (score b)
  && String.eqb (text a) (text b)
  && explanation_eqb (analysis_explanation a) (analysis_explanation b).

(** ** Python list primitives *)

(** [sorted(l, key=lambda x: x.start)]: the sort is stable, so the result
    is the only permutation that is ascending by [start] and keeps the
    arrival order among equal keys; a stable insertion sort computes it. *)
Fixpoint insert_by_start (x : PIIFinding) (l : list PIIFinding) : list PIIFinding :=
  match l with
  | [] => [x]
  | y :: l' => if start x <=? start y then x :: y :: l' else y :: insert_by_start x l'
  end.

Definition sorted_by_start (l : list PIIFinding) : list PIIFinding :=
  foldr insert_by_start [] l.

(** [sorted(l, key=lambda x: x.start, reverse=True)]: descending by
    [start]; elements with equal keys keep their arrival order. *)
Fixpoint insert_by_start_desc (x : PIIFinding) (l : list PIIFinding) : list PIIFinding :=
  match l with
  | [] => [x]
  | y :: l' => if start y <=? start x then x :: y :: l' else y :: insert_by_start_desc x l'
  end.

Definition sorted_by_start_desc (l : list PIIFinding) : list PIIFinding :=
  foldr insert_by_start_desc [] l.

(** [l.remove(x)]: drops the first element equal to [x]. *)
Fixpoint list_remove (x : PIIFinding) (l : list PIIFinding) : list PIIFinding :=
  match l with
  | [] => []
  | y :: l' => if finding_eqb y x then l' else y :: list_remove x l'
  end.

(** ** consolidate_findings *)

(** The test of the inner loop:
    [finding.start <= existing.end and finding.end >= existing.start]. *)
Definition overlaps (finding existing : PIIFinding) : bool :=
  (start finding <=? end_ existing) && (end_ finding >=? start existing).

(** The inner [for existing in consolidated: ... break] loop. *)
Fixpoint first_overlapping (finding : PIIFinding) (consolidated : list PIIFinding)
  : option PIIFinding :=
  match consolidated with
  | [] => None
  | existing :: rest =>
      if overlaps finding existing then Some existing
      else first_overlapping finding rest
  end.

(** One iteration of the outer loop. *)
Definition consolidate_step (consolidated : list PIIFinding) (finding : PIIFinding)
  : list PIIFinding :=
  match first_overlapping finding consolidated with
  | Some overlapping =>
      if (score overlapping <? score finding)%float
      then (list_remove overlapping consolidated ++ [finding])%list
      else consolidated
  | None => (consolidated ++ [finding])%list
  end.

Definition consolidate_findings (findings : list PIIFinding) : list PIIFinding :=
  match findings with
  | [] => []
  | _ => foldl consolidate_step [] (sorted_by_start findings)
  end.

(** ** Strings *)

Fixpoint string_take (n : nat) (s : string) : string :=
  match n, s with
  | S n', String c s' => String c (string_take n' s')
  | _, _ => ""
  end.

Fixpoint string_drop (n : nat) (s : string) : string :=
  match n, s with
  | S n', String _ s' => string_drop n' s'
  | _, _ => s
  end.

(** How a slice bound is read against a sequence of length [len]: a
    negative bound counts from the end, and the result is clamped to
    [0..len]. *)
Definition slice_bound (len : nat) (i : Z) : nat :=
  Z.to_nat (Z.min (Z.of_nat len) (if i <? 0 then Z.max 0 (Z.of_nat len + i) else i)).

(** [s[:i]] *)
Definition str_to (s : string) (i : Z) : string :=
  string_take (slice_bound (String.length s) i) s.

(** [s[j:]] *)
Definition str_from (s : string) (j : Z) : string :=
  string_drop (slice_bound (String.length s) j) s.

(** [s[i:j]] *)
Definition str_slice (s : string) (i j : Z) : string :=
  let lo := slice_bound (String.length s) i in
  let hi := slice_bound (String.length s) j in
  string_take (hi - lo) (string_drop lo s).

(** ** The placeholder anonymizer

    The loop shared by [analyze_with_spacy], [analyze_with_transformers]
    and [analyze_hybrid]:
    [for finding in sorted(findings, key=lambda x: x.start, reverse=True)]. *)

(** [f"[{finding.entity_type}]"] *)
Definition replacement (finding : PIIFinding) : string :=
  "[" ++ entity_type finding ++ "]".

Definition anonymize_step (anonymized_text : string) (finding : PIIFinding) : string :=
  str_to anonymized_text (start finding)
  ++ replacement finding
  ++ str_from anonymized_text (end_ finding).

Definition anonymize (text : string) (findings : list PIIFinding) : string :=
  foldl anonymize_step text (sorted_by_start_desc findings).

(** ** Exceptions

    [BackendError] is whatever a backend raises, with its message. *)

Inductive Exn :=
| HTTPException (status_code : Z) (detail : string)
| KeyError (key : string)
| AttributeError (msg : string)
| BackendError (msg : string).

(** [str(e)] *)
Definition exn_str (e : Exn) : string :=
  match e with
  | HTTPException _ detail => detail
  | KeyError key => "'" ++ key ++ "'"
  | AttributeError msg => msg
  | BackendError msg => msg
  end.

Inductive Result (A : Type) :=
| Return (a : A)
| Raise (e : Exn).
Arguments Return {A} a.
Arguments Raise {A} e.

#[global] Instance Result_ret : MRet Result := λ A a, Return a.

#[global] Instance Result_bind : MBind Result := λ A B k m,
  match m with
  | Return a => k a
  | Raise e => Raise e
  end.

#[global] Instance Result_fmap : FMap Result := λ A B f m,
  match m with
  | Return a => Return (f a)
  | Raise e => Raise e
  end.

(** [try: m  except Exception as e: handler e] *)
Definition try_except {A} (m : Result A) (handler : Exn → Result A) : Result A :=
  match m with
  | Return a => Return a
  | Raise e => handler e
  end.

Definition is_return {A} (m : Result A) : bool :=
  match m with Return _ => true | Raise _ => false end.

(** ** The detection backends

    The engines are outside the service; each is the function the service
    calls on it, which returns the raw detections or raises. *)

(** presidio's [RecognizerResult]. *)
Record RecognizerResult := {
  rr_entity_type : string;
  rr_start : Z;
  rr_end : Z;
  rr_score : float;
  recognition_metadata : gmap string PyVal
}.

(** spaCy's [Span], as read through [doc.ents]. *)
Record Span := {
  label_ : string;
  start_char : Z;
  end_char : Z;
  span_text : string
}.

(** One dictionary of the list which the transformers pipeline returns. *)
Record NerGroup := {
  entity_group : string;
  ner_score : float;
  word : string;
  ner_start : Z;
  ner_end : Z
}.

(** The objects stored in [nlp_models]; [Weights] stands for the
    tokenizer and the model kept next to the transformers pipeline. *)
Inductive Model :=
| SpacyLanguage (nlp : string → Result (list Span))
| AnalyzerEngine
    (analyze : string → list string → string → float → Result (list RecognizerResult))
| AnonymizerEngine (anonymize_native : string → list RecognizerResult → Result string)
| NerPipeline (pipeline : string → Result (list NerGroup))
| Weights.

(** The process state the endpoints read: the registry [nlp_models], the
    library function [spacy.explain], and the readings of [time.time()],
    numbered in the order they are taken. *)
Record Env := {
  nlp_models : gmap string Model;
  spacy_explain : string → PyVal;
  clock : nat → float
}.

(** [nlp_models[key]] *)
Definition registry_get (env : Env) (key : string) : Result Model :=
  match nlp_models env !! key with
  | Some m => Return m
  | None => Raise (KeyError key)
  end.

(** [key in nlp_models] *)
Definition loaded (env : Env) (key : string) : bool :=
  bool_decide (is_Some (nlp_models env !! key)).

(** [request.config or PIIDetectionConfig()] *)
Definition config_of (request : AnalysisRequest) : PIIDetectionConfig :=
  default default_config (req_config request).

(** [xs or default]: an empty list is false. *)
Definition list_or {A} (xs default : list A) : list A :=
  match xs with [] => default | _ => xs end.

(** ** The single-engine endpoints *)

Definition presidio_default_entities : list string :=
  ["PERSON"; "EMAIL_ADDRESS"; "PHONE_NUMBER"; "CREDIT_CARD";
   "SSN"; "IBAN_CODE"; "IP_ADDRESS"; "DATE_TIME"; "LOCATION";
   "MEDICAL_LICENSE"; "US_DRIVER_LICENSE"; "US_PASSPORT";
   "CRYPTO"; "US_BANK_NUMBER"; "AGE"; "ORGANIZATION"].

(** [d.get(key, default)] *)
Definition dict_get (d : gmap string PyVal) (key : string) (dflt : PyVal) : PyVal :=
  default dflt (d !! key).

(** The body of the conversion loop of [analyze_with_presidio]. *)
Definition presidio_finding (request_text : string) (result : RecognizerResult)
  : PIIFinding :=
  let md := recognition_metadata result in
  {| entity_type := rr_entity_type result;
     start := rr_start result;
     end_ := rr_end result;
     score := rr_score result;
     text := str_slice request_text (rr_start result) (rr_end result);
     analysis_explanation := Some (list_to_map
       [("recognizer", dict_get md "recognizer_name" (PyStr ""));
        ("pattern_name", dict_get md "pattern_name" (PyStr ""));
        ("pattern", dict_get md "pattern" (PyStr ""));
        ("original_score", PyFloat (rr_score result));
        ("score_context_improvement", dict_get md "score_context_improvement" (PyInt 0));
        ("supportive_context_word", dict_get md "supportive_context_word" (PyStr ""));
        ("validation_result", dict_get md "validation_result" PyNone)]) |}.

Definition analyze_with_presidio (env : Env) (request : AnalysisRequest)
  : Result PIIAnalysisResult :=
  if negb (loaded env "presidio_analyzer")
  then Raise (HTTPException 503 "Presidio not available")
  else
    try_except
      (analyzer ← registry_get env "presidio_analyzer";
       anonymizer ← registry_get env "presidio_anonymizer";
       let config := config_of request in
       let entities := list_or (entities config) presidio_default_entities in
       results ←
         match analyzer with
         | AnalyzerEngine analyze =>
             analyze (req_text request) entities (language config)
               (confidence_threshold config)
         | _ => Raise (AttributeError "analyze")
         end;
       let findings := presidio_finding (req_text request) <$> results in
       anonymized_result_text ←
         match anonymizer with
         | AnonymizerEngine anonymize_native => anonymize_native (req_text request) results
         | _ => Raise (AttributeError "anonymize")
         end;
       mret {| findings := findings;
               anonymized_text := anonymized_result_text;
               processing_engine := "presidio" |})
      (λ e, Raise (HTTPException 500 ("Presidio analysis failed: " ++ exn_str e))).

Definition spacy_default_entities : list string :=
  ["PERSON"; "ORG"; "GPE"; "DATE"; "TIME"; "MONEY"; "CARDINAL"].

(** [x in xs] on a list of strings. *)
Definition str_in (x : string) (xs : list string) : bool := bool_decide (x ∈ xs).

(** The body of the extraction loop of [analyze_with_spacy]: the finding
    an entity contributes, if any. *)
Definition spacy_finding (env : Env) (config : PIIDetectionConfig) (ent : Span)
  : option PIIFinding :=
  if str_in (label_ ent) (list_or (entities config) spacy_default_entities) then
    let confidence :=
      if str_in (label_ ent) ["PERSON"; "ORG"] then 0.8%float else 0.7%float in
    if (confidence_threshold config <=? confidence)%float then
      Some {| entity_type := label_ ent;
              start := start_char ent;
              end_ := end_char ent;
              score := confidence;
              text := span_text ent;
              analysis_explanation := Some (list_to_map
                [("recognizer", PyStr "spacy_ner");
                 ("entity_label", PyStr (label_ ent));
                 ("entity_description", spacy_explain env (label_ ent))]) |}
    else None
  else None.

Definition analyze_with_spacy (env : Env) (request : AnalysisRequest)
  : Result PIIAnalysisResult :=
  if negb (loaded env "spacy")
  then Raise (HTTPException 503 "spaCy not available")
  else
    try_except
      (model ← registry_get env "spacy";
       let config := config_of request in
       ents ←
         match model with
         | SpacyLanguage nlp => nlp (req_text request)
         | _ => Raise (AttributeError "__call__")
         end;
       let findings := omap (spacy_finding env config) ents in
       let anonymized_text := anonymize (req_text request) findings in
       mret {| findings := findings;
               anonymized_text := anonymized_text;
               processing_engine := "spacy" |})
      (λ e, Raise (HTTPException 500 ("spaCy analysis failed: " ++ exn_str e))).

(** The body of the conversion loop of [analyze_with_transformers]. *)
Definition transformers_finding (config : PIIDetectionConfig) (result : NerGroup)
  : option PIIFinding :=
  if (confidence_threshold config <=? ner_score result)%float then
    Some {| entity_type := entity_group result;
            start := ner_start result;
            end_ := ner_end result;
            score := ner_score result;
            text := word result;
            analysis_explanation := Some (list_to_map
              [("recognizer", PyStr "transformers_bert");
               ("model", PyStr "dbmdz/bert-large-cased-finetuned-conll03-english");
               ("entity_group", PyStr (entity_group result));
               ("original_score", PyFloat (ner_score result))]) |}
  else None.

Definition analyze_with_transformers (env : Env) (request : AnalysisRequest)
  : Result PIIAnalysisResult :=
  if negb (loaded env "transformers_pipeline")
  then Raise (HTTPException 503 "Transformers not available")
  else
    try_except
      (model ← registry_get env "transformers_pipeline";
       let config := config_of request in
       results ←
         match model with
         | NerPipeline pipeline => pipeline (req_text request)
         | _ => Raise (AttributeError "__call__")
         end;
       let findings := omap (transformers_finding config) results in
       let anonymized_text := anonymize (req_text request) findings in
       mret {| findings := findings;
               anonymized_text := anonymized_text;
               processing_engine := "transformers" |})
      (λ e, Raise (HTTPException 500 ("Transformers analysis failed: " ++ exn_str e))).

(** ** analyze_hybrid *)

(** One of the three guarded blocks of [analyze_hybrid]:
    [if key in nlp_models: try: ... extend, append ... except: log].
    The state is the pair [(all_findings, engines_used)]. *)
Definition hybrid_engine (env : Env) (key name : string)
    (analyze : Env → AnalysisRequest → Result PIIAnalysisResult)
    (request : AnalysisRequest) (st : list PIIFinding * list string)
  : list PIIFinding * list string :=
  if loaded env key then
    match analyze env request with
    | Return result => ((st.1 ++ findings result)%list, (st.2 ++ [name])%list)
    | Raise _ => st
    end
  else st.

(** The pair [(all_findings, engines_used)] after the three blocks. *)
Definition hybrid_collect (env : Env) (request : AnalysisRequest)
  : list PIIFinding * list string :=
  hybrid_engine env "transformers_pipeline" "transformers" analyze_with_transformers request
    (hybrid_engine env "spacy" "spacy" analyze_with_spacy request
      (hybrid_engine env "presidio_analyzer" "presidio" analyze_with_presidio request
        ([], []))).

Definition analyze_hybrid (env : Env) (request : AnalysisRequest)
  : Result PIIAnalysisResult :=
  try_except
    (let all_findings := (hybrid_collect env request).1 in
     let consolidated_findings := consolidate_findings all_findings in
     let anonymized_text := anonymize (req_text request) consolidated_findings in
     mret {| findings := consolidated_findings;
             anonymized_text := anonymized_text;
             processing_engine := "hybrid" |})
    (λ e, Raise (HTTPException 500 ("Hybrid analysis failed: " ++ exn_str e))).

(** ** benchmark_engines *)

(** A value of the [performance] dictionary. *)
Inductive PerfVal :=
| Elapsed (seconds : float)
| Sentinel (z : Z)
| Comparison (counts : gmap string Z).

(** The local state of [benchmark_engines]: the two dictionaries and the
    number of readings of [time.time()] taken so far. *)
Record BenchState := {
  results : gmap string PIIAnalysisResult;
  performance : gmap string PerfVal;
  ticks : nat
}.

(** One of the three guarded blocks of [benchmark_engines]. The second
    reading of the clock is taken only when the call returns. *)
Definition benchmark_engine (env : Env) (key name : string)
    (analyze : Env → AnalysisRequest → Result PIIAnalysisResult)
    (request : BenchmarkRequest) (st : BenchState) : BenchState :=
  if loaded env key then
    let start_time := clock env (ticks st) in
    match analyze env {| req_text := bench_text request; req_config := None |} with
    | Return result =>
        {| results := <[name := result]> (results st);
           performance :=
             <[name ++ "_time" := Elapsed (clock env (S (ticks st)) - start_time)%float]>
               (performance st);
           ticks := S (S (ticks st)) |}
    | Raise _ =>
        {| results := results st;
           performance := <[name ++ "_time" := Sentinel (-1)]> (performance st);
           ticks := S (ticks st) |}
    end
  else st.

(** What [results.get(name, {})] evaluates to: the stored model, or the
    default, an empty dictionary. *)
Inductive ResultOrDict :=
| StoredResult (r : PIIAnalysisResult)
| DefaultDict (d : gmap string (list PIIFinding)).

Definition results_get (results : gmap string PIIAnalysisResult) (name : string)
  : ResultOrDict :=
  match results !! name with
  | Some r => StoredResult r
  | None => DefaultDict ∅
  end.

(** The exception of an attribute access [r.get] on a [PIIAnalysisResult]. *)
Definition no_attribute_get : Exn :=
  AttributeError "'PIIAnalysisResult' object has no attribute 'get'".

(** [v.get('findings', [])]: a dictionary answers; a [PIIAnalysisResult]
    is a pydantic model, which has no attribute [get]. *)
Definition get_findings (v : ResultOrDict) : Result (list PIIFinding) :=
  match v with
  | StoredResult _ => Raise no_attribute_get
  | DefaultDict d => Return (default [] (d !! "findings"))
  end.

(** [len(results.get(name, {}).get('findings', []))] *)
Definition findings_count (results : gmap string PIIAnalysisResult) (name : string)
  : Result Z :=
  fs ← get_findings (results_get results name);
  mret (Z.of_nat (length fs)).

(** The dictionary literal stored under ['accuracy_comparison']; its
    values are evaluated in the order written. *)
Definition accuracy_comparison (results : gmap string PIIAnalysisResult)
  : Result (gmap string Z) :=
  p ← findings_count results "presidio";
  s ← findings_count results "spacy";
  t ← findings_count results "transformers";
  mret (list_to_map [("presidio_findings", p); ("spacy_findings", s);
                     ("transformers_findings", t)]).

(** The state after the three guarded blocks. *)
Definition benchmark_collect (env : Env) (request : BenchmarkRequest) : BenchState :=
  benchmark_engine env "transformers_pipeline" "transformers" analyze_with_transformers request
    (benchmark_engine env "spacy" "spacy" analyze_with_spacy request
      (benchmark_engine env "presidio_analyzer" "presidio" analyze_with_presidio request
        {| results := ∅; performance := ∅; ticks := 0 |})).

(** The returned dictionary [{**results, 'performance': performance}]. *)
Record BenchmarkResponse := {
  engine_results : gmap string PIIAnalysisResult;
  response_performance : gmap string PerfVal
}.

Definition benchmark_engines (env : Env) (request : BenchmarkRequest)
  : Result BenchmarkResponse :=
  let st := benchmark_collect env request in
  comparison ← accuracy_comparison (results st);
  mret {| engine_results := results st;
          response_performance :=
            <["accuracy_comparison" := Comparison comparison]> (performance st) |}.

(** ** Properties of finding lists *)

Definition le_start (a b : PIIFinding) : Prop := start a ≤ start b.

Definition apart (a b : PIIFinding) : Prop := overlaps a b = false.

(** Ascending by [start], read position by position. *)
Definition ascending_by_start (l : list PIIFinding) : Prop :=
  ∀ i j a b, (i < j)%nat → l !! i = Some a → l !! j = Some b → start a ≤ start b.

(** No two entries at different positions pass the closed-interval test. *)
Definition pairwise_non_overlapping (l : list PIIFinding) : Prop :=
  ∀ i j a b, i ≠ j → l !! i = Some a → l !! j = Some b → overlaps a b = false.

(** ** Vocabulary of the statements, and sample inputs *)

(** What the loop keeps true of [consolidated]: it is ascending by
    [start] and no two of its entries overlap. *)
Definition accepted_ok (acc : list PIIFinding) : Prop :=
  StronglySorted le_start acc ∧ StronglySorted apart acc.

(** The boundary case: spans [0,4] and [4,8] touch at 4. *)
Definition touching_low : PIIFinding :=
  {| entity_type := "A"; start := 0; end_ := 4; score := 0.5%float;
     text := "John"; analysis_explanation := None |}.

Definition touching_high : PIIFinding :=
  {| entity_type := "B"; start := 4; end_ := 8; score := 0.75%float;
     text := " Doe"; analysis_explanation := None |}.

(** Two findings five characters apart. *)
Definition apart_first : PIIFinding :=
  {| entity_type := "PERSON"; start := 0; end_ := 4; score := 0.9%float;
     text := "John"; analysis_explanation := None |}.

Definition apart_second : PIIFinding :=
  {| entity_type := "GPE"; start := 9; end_ := 14; score := 0.7%float;
     text := "Paris"; analysis_explanation := None |}.

(** A chain of three findings: the first overlaps the second, the second
    the third, the first and the third are apart. *)
Definition chain_findings : list PIIFinding :=
  [ {| entity_type := "PERSON"; start := 0; end_ := 5; score := 0.5%float;
       text := "John "; analysis_explanation := None |};
    {| entity_type := "ORG"; start := 3; end_ := 8; score := 0.9%float;
       text := "n Doe"; analysis_explanation := None |};
    {| entity_type := "GPE"; start := 6; end_ := 10; score := 0.7%float;
       text := "oe i"; analysis_explanation := None |} ].

Definition scenario_text : string := "John Doe is here".

Definition scenario_person (t : string) (e : option (gmap string PyVal)) : PIIFinding :=
  {| entity_type := "PERSON"; start := 0; end_ := 4; score := 0.9%float;
     text := t; analysis_explanation := e |}.

Definition scenario_org (t : string) (e : option (gmap string PyVal)) : PIIFinding :=
  {| entity_type := "ORG"; start := 2; end_ := 6; score := 0.6%float;
     text := t; analysis_explanation := e |}.

(** The findings an engine adds to [all_findings]: those of its result
    when it is loaded and its call returns, none otherwise. *)
Definition contribution (env : Env) (key : string)
    (analyze : Env → AnalysisRequest → Result PIIAnalysisResult)
    (request : AnalysisRequest) : list PIIFinding :=
  if loaded env key then
    match analyze env request with
    | Return result => findings result
    | Raise _ => []
    end
  else [].

(** The concatenation of what the surviving engines found, in the order
    presidio, spaCy, transformers. *)
Definition surviving_findings (env : Env) (request : AnalysisRequest) : list PIIFinding :=
  (contribution env "presidio_analyzer" analyze_with_presidio request
   ++ contribution env "spacy" analyze_with_spacy request
   ++ contribution env "transformers_pipeline" analyze_with_transformers request)%list.

(** An environment in which no model was loaded. *)
Definition empty_env : Env :=
  {| nlp_models := ∅; spacy_explain := λ _, PyNone; clock := λ _, 0%float |}.

Definition scenario_request : AnalysisRequest :=
  {| req_text := scenario_text; req_config := None |}.

(** Two groups of the transformers pipeline that touch at offset 4. *)
Definition touching_groups : list NerGroup :=
  [ {| entity_group := "PER"; ner_score := 0.99%float; word := "John";
       ner_start := 0; ner_end := 4 |};
    {| entity_group := "ORG"; ner_score := 0.9%float; word := "son";
       ner_start := 4; ner_end := 7 |} ].

Definition transformers_env : Env :=
  {| nlp_models := {[ "transformers_pipeline" := NerPipeline (λ _, Return touching_groups) ]};
     spacy_explain := λ _, PyNone;
     clock := λ _, 0%float |}.

Definition johnson_request : AnalysisRequest :=
  {| req_text := "Johnson works here"; req_config := None |}.

Definition johnson_ents : list Span :=
  [ {| label_ := "PERSON"; start_char := 0; end_char := 7; span_text := "Johnson" |} ].

Definition two_engine_env : Env :=
  {| nlp_models :=
       <["spacy" := SpacyLanguage (λ _, Return johnson_ents)]>
         {[ "transformers_pipeline" := NerPipeline (λ _, Return touching_groups) ]};
     spacy_explain := λ _, PyNone;
     clock := λ _, 0%float |}.

(** spaCy is loaded and its call raises; the transformers pipeline is
    loaded and returns no group. *)
Definition benchmark_env : Env :=
  {| nlp_models :=
       <["spacy" := SpacyLanguage (λ _, Raise (BackendError "model failure"))]>
         {[ "transformers_pipeline" := NerPipeline (λ _, Return []) ]};
     spacy_explain := λ _, PyNone;
     clock := λ n, PrimFloat.of_uint63 (Uint63.of_Z (Z.of_nat n)) |}.

Definition benchmark_request : BenchmarkRequest := {| bench_text := scenario_text |}.

(** An engine's benchmarked call returns. *)
Definition engine_succeeds (env : Env) (key : string)
    (analyze : Env → AnalysisRequest → Result PIIAnalysisResult)
    (request : BenchmarkRequest) : Prop :=
  loaded env key = true
  ∧ is_return (analyze env {| req_text := bench_text request; req_config := None |}) = true.

(** [0 <= start < end <= len(text)] *)
Definition valid_offsets (text : string) (f : PIIFinding) : Prop :=
  0 ≤ start f ∧ start f < end_ f ∧ end_ f ≤ Z.of_nat (String.length text).

(** The spans [[start, end)] of two findings share no position. *)
Definition disjoint (a b : PIIFinding) : Prop :=
  end_ a ≤ start b ∨ end_ b ≤ start a.

Definition pairwise_disjoint (l : list PIIFinding) : Prop :=
  ∀ i j a b, i ≠ j → l !! i = Some a → l !! j = Some b → disjoint a b.

(** The sum of [end - start] over the findings. *)
Definition removed_length (l : list PIIFinding) : Z :=
  foldr (λ f n, (end_ f - start f) + n) 0 l.

(** The sum of [len("[" + entity_type + "]")] over the findings. *)
Definition inserted_length (l : list PIIFinding) : Z :=
  foldr (λ f n, Z.of_nat (String.length (replacement f)) + n) 0 l.

(** In a list sorted for the anonymizer, each finding ends where the
    ones before it start, or earlier. *)
Definition ends_before (a b : PIIFinding) : Prop := end_ b ≤ start a.

Definition scenario_doe : PIIFinding :=
  {| entity_type := "PERSON"; start := 5; end_ := 8; score := 0.9%float;
     text := "Doe"; analysis_explanation := None |}.

(** ** lifespan: loading the models at startup *)

(** The outcomes of the library calls made at startup, each of which
    returns an object or raises: [spacy.load], the imports of the
    presidio and transformers packages, [AnalyzerEngine()],
    [AnonymizerEngine()], the two [from_pretrained] calls and
    [pipeline("ner", model=..., tokenizer=...)]. *)
Record Loaders := {
  spacy_load : Result Model;
  import_presidio : Result ();
  new_analyzer : Result Model;
  new_anonymizer : Result Model;
  import_transformers : Result ();
  tokenizer_from_pretrained : Result Model;
  model_from_pretrained : Result Model;
  new_pipeline : Model → Model → Result Model
}.

(** [nlp_models[key] = value] followed by the rest of a [try] block: when
    the right-hand side raises, the block is left and the registry keeps
    what was stored before. *)
Definition assign (key : string) (value : Result Model)
    (rest : gmap string Model → gmap string Model)
    (registry : gmap string Model) : gmap string Model :=
  match value with
  | Return m => rest (<[key := m]> registry)
  | Raise _ => registry
  end.

(** An import at the head of a [try] block. *)
Definition importing (import : Result ())
    (rest : gmap string Model → gmap string Model)
    (registry : gmap string Model) : gmap string Model :=
  match import with
  | Return _ => rest registry
  | Raise _ => registry
  end.

Definition load_spacy_block (loaders : Loaders) : gmap string Model → gmap string Model :=
  assign "spacy" (spacy_load loaders) id.

Definition load_presidio_block (loaders : Loaders) : gmap string Model → gmap string Model :=
  importing (import_presidio loaders)
    (assign "presidio_analyzer" (new_analyzer loaders)
      (assign "presidio_anonymizer" (new_anonymizer loaders) id)).

(** The pipeline is built from the two objects just stored. *)
Definition load_transformers_block (loaders : Loaders)
  : gmap string Model → gmap string Model :=
  importing (import_transformers loaders)
    (assign "transformers_tokenizer" (tokenizer_from_pretrained loaders)
      (assign "transformers_model" (model_from_pretrained loaders)
        (λ registry,
           match registry !! "transformers_model", registry !! "transformers_tokenizer" with
           | Some model, Some tokenizer =>
               assign "transformers_pipeline" (new_pipeline loaders model tokenizer) id registry
           | _, _ => registry
           end))).

(** The part of [lifespan] that runs before [yield]: the three [try]
    blocks in turn, on the registry as it stands. *)
Definition lifespan_startup (loaders : Loaders) (registry : gmap string Model)
  : gmap string Model :=
  load_transformers_block loaders
    (load_presidio_block loaders
      (load_spacy_block loaders registry)).

(** The process state once [lifespan] has run on the empty registry. *)
Definition started (loaders : Loaders) (explain : string → PyVal) (time : nat → float)
  : Env :=
  {| nlp_models := lifespan_startup loaders ∅;
     spacy_explain := explain;
     clock := time |}.

(** ** health_check *)

Record HealthResponse := {
  status : string;
  models_loaded : gmap string bool;
  timestamp : float
}.

Definition health_check (env : Env) : HealthResponse :=
  {| status := "healthy";
     models_loaded :=
       list_to_map [("spacy", loaded env "spacy");
                    ("presidio", loaded env "presidio_analyzer");
                    ("transformers", loaded env "transformers_pipeline")];
     timestamp := clock env 0 |}.

(** ** Further vocabulary *)

(** One pass from left to right over findings in ascending order: the
    text between the spans is copied and each span gives its
    placeholder. *)
Fixpoint render (text : string) (pos : Z) (ascending : list PIIFinding) : string :=
  match ascending with
  | [] => str_from text pos
  | f :: rest =>
      str_slice text pos (start f) ++ replacement f ++ render text (end_ f) rest
  end.

(** Each finding ends where the ones after it start, or earlier. *)
Definition ends_before_next (a b : PIIFinding) : Prop := end_ a ≤ start b.

(** Findings that share a start are one and the same finding. *)
Definition starts_identify (l : list PIIFinding) : Prop :=
  ∀ a b, a ∈ l → b ∈ l → start a = start b → a = b.

(** The middle finding of the chain, which has the highest score. *)
Definition chain_middle : PIIFinding :=
  {| entity_type := "ORG"; start := 3; end_ := 8; score := 0.9%float;
     text := "n Doe"; analysis_explanation := None |}.

(** Two overlapping findings with the same start and the same score. *)
Definition tie_person : PIIFinding :=
  {| entity_type := "PERSON"; start := 0; end_ := 4; score := 0.8%float;
     text := "John"; analysis_explanation := None |}.

Definition tie_org : PIIFinding :=
  {| entity_type := "ORG"; start := 0; end_ := 8; score := 0.8%float;
     text := "John Doe"; analysis_explanation := None |}.


(** A startup in which spaCy loads, presidio's analyzer is built but its
    anonymizer is not, and the transformers package is missing. *)
Definition sample_loaders : Loaders :=
  {| spacy_load := Return (SpacyLanguage (λ _, Return johnson_ents));
     import_presidio := Return ();
     new_analyzer := Return (AnalyzerEngine (λ _ _ _ _, Return []));
     new_anonymizer := Raise (BackendError "no recognizer registry");
     import_transformers := Raise (BackendError "No module named 'transformers'");
     tokenizer_from_pretrained := Return Weights;
     model_from_pretrained := Return Weights;
     new_pipeline := λ _ _, Return (NerPipeline (λ _, Return touching_groups)) |}.

(** A registry with both presidio models; the analyzer reports one
    person and the anonymizer answers with a fixed text. *)
Definition presidio_env : Env :=
  {| nlp_models :=
       <["presidio_analyzer" := AnalyzerEngine (λ _ _ _ _,
            Return [ {| rr_entity_type := "PERSON"; rr_start := 0; rr_end := 8;
                        rr_score := 0.85%float; recognition_metadata := ∅ |} ])]>
         {[ "presidio_anonymizer" := AnonymizerEngine (λ _ _, Return "<PERSON> is here") ]};
     spacy_explain := λ _, PyNone;
     clock := λ _, 0%float |}.

(** A registry with a spaCy model that reports a person and a quantity. *)
Definition spacy_env : Env :=
  {| nlp_models :=
       {[ "spacy" := SpacyLanguage (λ _,
            Return [ {| label_ := "PERSON"; start_char := 0; end_char := 8;
                        span_text := "John Doe" |};
                     {| label_ := "QUANTITY"; start_char := 9; end_char := 11;
                        span_text := "is" |} ]) ]};
     spacy_explain := λ _, PyNone;
     clock := λ _, 0%float |}.

(** The analyzer result of [presidio_env] and the finding made of it. *)
Definition john_doe_result : RecognizerResult :=
  {| rr_entity_type := "PERSON"; rr_start := 0; rr_end := 8;
     rr_score := 0.85%float; recognition_metadata := ∅ |}.

Definition presidio_sample_result : PIIAnalysisResult :=
  {| findings := [presidio_finding scenario_text john_doe_result];
     anonymized_text := "<PERSON> is here";
     processing_engine := "presidio" |}.

(** The entity which [spacy_env] reports and the service keeps. *)
Definition john_doe_ent : Span :=
  {| label_ := "PERSON"; start_char := 0; end_char := 8; span_text := "John Doe" |}.

Definition spacy_sample_finding : PIIFinding :=
  {| entity_type := "PERSON"; start := 0; end_ := 8; score := 0.8%float;
     text := "John Doe";
     analysis_explanation := Some (list_to_map
       [("recognizer", PyStr "spacy_ner");
        ("entity_label", PyStr "PERSON");
        ("entity_description", PyNone)]) |}.

Definition spacy_sample_result : PIIAnalysisResult :=
  {| findings := [spacy_sample_finding];
     anonymized_text := "[PERSON] is here";
     processing_engine := "spacy" |}.

(** The second finding which [transformers_env] yields. *)
Definition johnson_org_finding : PIIFinding :=
  {| entity_type := "ORG"; start := 4; end_ := 7; score := 0.9%float;
     text := "son";
     analysis_explanation := Some (list_to_map
       [("recognizer", PyStr "transformers_bert");
        ("model", PyStr "dbmdz/bert-large-cased-finetuned-conll03-english");
        ("entity_group", PyStr "ORG");
        ("original_score", PyFloat 0.9%float)]) |}.

Definition transformers_sample_result : PIIAnalysisResult :=
  {| findings := omap (transformers_finding default_config) touching_groups;
     anonymized_text := "[PER][ORG] works here";
     processing_engine := "transformers" |}.

(** No benchmarked call returns: every engine is absent or its call raises. *)
Definition no_engine_succeeds (env : Env) (request : BenchmarkRequest) : Prop :=
  ¬ engine_succeeds env "presidio_analyzer" analyze_with_presidio request
  ∧ ¬ engine_succeeds env "spacy" analyze_with_spacy request
  ∧ ¬ engine_succeeds env "transformers_pipeline" analyze_with_transformers request.

(** The time recorded for an engine none of whose calls returned. *)
Definition sentinel_if_loaded (env : Env) (key : string) : option PerfVal :=
  if loaded env key then Some (Sentinel (-1)) else None.

Definition zero_counts : gmap string Z :=
  list_to_map [("presidio_findings", 0); ("spacy_findings", 0);
               ("transformers_findings", 0)].

(** Only spaCy is loaded, and its call raises. *)
Definition failing_spacy_env : Env :=
  {| nlp_models := {[ "spacy" := SpacyLanguage (λ _, Raise (BackendError "model failure")) ]};
     spacy_explain := λ _, PyNone;
     clock := λ _, 0%float |}.

(** * Proofs *)

Section ordered_pairs.
Context {A : Type} (R : relation A).

Lemma StronglySorted_lookup (l : list A) :
  StronglySorted R l ↔
  ∀ i j a b, (i < j)%nat → l !! i = Some a → l !! j = Some b → R a b.
Proof.
  split.
  - induction 1 as [|x l Hl IH Hx]; intros i j a b Hij Hi Hj.
    + by rewrite lookup_nil in Hi.
    + destruct j as [|j]; [lia|]. destruct i as [|i]; simpl in *.
      * injection Hi as <-. rewrite Forall_forall in Hx.
        apply Hx. by eapply list_elem_of_lookup_2.
      * eapply IH; [|done..]. lia.
  - induction l as [|x l IH]; intros H; constructor.
    + apply IH. intros i j a b Hij Hi Hj. by apply (H (S i) (S j)); [lia|..].
    + apply Forall_forall. intros y Hy.
      apply list_elem_of_lookup in Hy as [j Hj].
      by apply (H 0%nat (S j)); [lia|..].
Qed.

Lemma StronglySorted_snoc (l : list A) (x : A) :
  StronglySorted R l → Forall (λ y, R y x) l → StronglySorted R (l ++ [x]).
Proof.
  intros Hl Hx. apply StronglySorted_app. split_and!; [|done|by repeat constructor].
  intros y z Hy ->%list_elem_of_singleton.
  by eapply (proj1 (Forall_forall _ _) Hx).
Qed.
Lemma StronglySorted_lookup_sym `{!Symmetric R} (l : list A) :
  StronglySorted R l ↔
  ∀ i j a b, i ≠ j → l !! i = Some a → l !! j = Some b → R a b.
Proof.
  rewrite StronglySorted_lookup. split.
  - intros H i j a b Hij Hi Hj.
    destruct (decide (i < j)%nat); [by eapply H|].
    symmetry. eapply (H j i); [lia|done..].
  - intros H i j a b Hij. apply H. lia.
Qed.

End ordered_pairs.

(** ** The overlap test and the equality of findings *)

Lemma overlaps_true a b :
  overlaps a b = true ↔ start a ≤ end_ b ∧ start b ≤ end_ a.
Proof. unfold overlaps. rewrite andb_true_iff, Z.geb_leb, !Z.leb_le. done. Qed.

Lemma overlaps_false a b :
  overlaps a b = false ↔ end_ b < start a ∨ end_ a < start b.
Proof.
  rewrite <-not_true_iff_false, overlaps_true. lia.
Qed.

Lemma overlaps_sym a b : overlaps a b = overlaps b a.
Proof. unfold overlaps. rewrite !Z.geb_leb. apply andb_comm. Qed.

#[local] Instance apart_sym : Symmetric apart.
Proof. intros a b. unfold apart. by rewrite overlaps_sym. Qed.

Lemma float_same_refl x : float_same x x = true.
Proof. unfold float_same, PrimFloat.is_nan. by destruct (x =? x)%float. Qed.

Lemma pyval_eqb_refl v : pyval_eqb v v = true.
Proof.
  destruct v; simpl; auto using String.eqb_refl, Z.eqb_refl, float_same_refl.
Qed.

Lemma explanation_eqb_refl e : explanation_eqb e e = true.
Proof.
  destruct e as [d|]; [|done]. apply bool_decide_eq_true. intros k.
  destruct (d !! k); simpl; auto using pyval_eqb_refl.
Qed.

Lemma finding_eqb_refl a : finding_eqb a a = true.
Proof.
  unfold finding_eqb.
  by rewrite !String.eqb_refl, !Z.eqb_refl, float_same_refl, explanation_eqb_refl.
Qed.

Lemma finding_eqb_span a b :
  finding_eqb a b = true → start a = start b ∧ end_ a = end_ b.
Proof.
  unfold finding_eqb. rewrite !andb_true_iff, !Z.eqb_eq. naive_solver.
Qed.

Lemma finding_eqb_overlaps f a b :
  finding_eqb a b = true → overlaps f a = overlaps f b.
Proof. intros [Hs He]%finding_eqb_span. unfold overlaps. by rewrite Hs, He. Qed.

(** ** The inner loop and the removal *)

Lemma first_overlapping_None f l :
  first_overlapping f l = None ↔ Forall (apart f) l.
Proof.
  induction l as [|e l IH]; simpl; [by split; [constructor|]|].
  rewrite Forall_cons. unfold apart at 1.
  destruct (overlaps f e); [naive_solver|]. rewrite IH. naive_solver.
Qed.

(** When the scan stops at [o], the call [consolidated.remove(o)] deletes
    that very entry: the entries before it do not overlap the candidate,
    so none of them is equal to [o]. In particular [remove] finds its
    argument and does not raise. *)
Lemma first_overlapping_Some f l o :
  first_overlapping f l = Some o →
  ∃ l1 l2, l = (l1 ++ o :: l2)%list ∧ Forall (apart f) l1 ∧
           overlaps f o = true ∧ list_remove o l = (l1 ++ l2)%list.
Proof.
  induction l as [|e l IH]; simpl; [done|].
  destruct (overlaps f e) eqn:He.
  - intros [= ->]. exists [], l. by rewrite finding_eqb_refl.
  - intros (l1 & l2 & -> & Hl1 & Ho & Hrm)%IH.
    exists (e :: l1), l2. split_and!; [done|by constructor|done|].
    destruct (finding_eqb e o) eqn:Heq; [|by rewrite Hrm].
    apply (finding_eqb_overlaps f) in Heq. congruence.
Qed.

(** ** One iteration of the outer loop *)

(** The three outcomes of an iteration. *)
Lemma consolidate_step_cases acc f :
  (Forall (apart f) acc ∧ consolidate_step acc f = (acc ++ [f])%list) ∨
  (∃ l1 o l2, acc = (l1 ++ o :: l2)%list ∧ Forall (apart f) l1 ∧ overlaps f o = true ∧
     ((score o <? score f)%float = true ∧
        consolidate_step acc f = ((l1 ++ l2) ++ [f])%list
      ∨ (score o <? score f)%float = false ∧ consolidate_step acc f = acc)).
Proof.
  unfold consolidate_step. destruct (first_overlapping f acc) as [o|] eqn:Hscan.
  - right. apply first_overlapping_Some in Hscan as (l1 & l2 & -> & Hl1 & Ho & Hrm).
    exists l1, o, l2. split_and!; [done..|].
    destruct (score o <? score f)%float; [left|right]; by rewrite ?Hrm.
  - left. by apply first_overlapping_None in Hscan.
Qed.

Lemma StronglySorted_drop_middle {A} (R : relation A) l1 x l2 :
  StronglySorted R (l1 ++ x :: l2) → StronglySorted R (l1 ++ l2).
Proof.
  rewrite !StronglySorted_app, StronglySorted_cons.
  intros (H12 & H1 & Hx & H2). split_and!; [|done..].
  intros y z Hy Hz. apply H12; [done|]. by right.
Qed.

Lemma consolidate_step_ok acc f :
  accepted_ok acc →
  Forall (λ e, le_start e f) acc →
  accepted_ok (consolidate_step acc f) ∧
  Forall (λ e, le_start e f) (consolidate_step acc f).
Proof.
  intros [Hsorted Hapart] Hle.
  destruct (consolidate_step_cases acc f)
    as [[Hnone ->]|(l1 & o & l2 & -> & Hl1 & Ho & [[_ ->]|[_ ->]])].
  - split; [split|].
    + by apply StronglySorted_snoc.
    + apply StronglySorted_snoc; [done|].
      eapply Forall_impl; [done|]. by intros e He; symmetry.
    + apply Forall_app. split; [done|]. repeat constructor. by unfold le_start.
  - assert (Forall (λ e, le_start e f) (l1 ++ l2)) as Hle'.
    { rewrite Forall_app, Forall_cons in Hle. rewrite Forall_app. tauto. }
    split; [split|].
    + apply StronglySorted_snoc; [by eapply StronglySorted_drop_middle|done].
    + apply StronglySorted_snoc; [by eapply StronglySorted_drop_middle|].
      apply Forall_app. split.
      * eapply Forall_impl; [done|]. by intros e He; symmetry.
      * apply StronglySorted_app_1_r, StronglySorted_cons in Hapart as [Ho2 _].
        rewrite Forall_app, Forall_cons in Hle. destruct Hle as (_ & Hof & Hl2f).
        rewrite Forall_forall in Ho2, Hl2f. apply Forall_forall. intros e He.
        specialize (Ho2 e He). specialize (Hl2f e He).
        unfold apart, le_start in *.
        apply overlaps_true in Ho. apply overlaps_false in Ho2.
        apply overlaps_false. lia.
    + apply Forall_app. split; [done|]. repeat constructor. by unfold le_start.
  - done.
Qed.

Lemma consolidate_fold_ok rest : ∀ acc,
  StronglySorted le_start rest →
  accepted_ok acc →
  (∀ e c, e ∈ acc → c ∈ rest → le_start e c) →
  accepted_ok (foldl consolidate_step acc rest).
Proof.
  induction rest as [|f rest IH]; intros acc Hrest Hacc Hle; simpl; [done|].
  apply StronglySorted_cons in Hrest as [Hf Hrest].
  destruct (consolidate_step_ok acc f) as [Hacc' Hle']; [done| |].
  { apply Forall_forall. intros e He. apply Hle; [done|by left]. }
  apply IH; [done..|].
  intros e c He Hc. rewrite Forall_forall in Hle', Hf.
  specialize (Hle' e He). specialize (Hf c Hc). unfold le_start in *. lia.
Qed.

(** ** The stable sort *)

Lemma insert_by_start_perm x l : insert_by_start x l ≡ₚ x :: l.
Proof.
  induction l as [|y l IH]; simpl; [done|].
  destruct (start x <=? start y); [done|]. rewrite IH. apply Permutation_swap.
Qed.

Lemma sorted_by_start_perm l : sorted_by_start l ≡ₚ l.
Proof.
  induction l as [|x l IH]; simpl; [done|].
  by rewrite insert_by_start_perm, IH.
Qed.

Lemma insert_by_start_sorted x l :
  StronglySorted le_start l → StronglySorted le_start (insert_by_start x l).
Proof.
  induction 1 as [|y l Hl IH Hy]; simpl; [by repeat constructor|].
  destruct (Z.leb_spec (start x) (start y)) as [Hxy|Hxy].
  - repeat constructor; [done..| |].
    + done.
    + eapply Forall_impl; [done|]. unfold le_start. intros z ?. lia.
  - constructor; [done|].
    rewrite insert_by_start_perm. constructor; [|done]. unfold le_start. lia.
Qed.

Lemma sorted_by_start_sorted l : StronglySorted le_start (sorted_by_start l).
Proof.
  induction l as [|x l IH]; simpl; [constructor|].
  by apply insert_by_start_sorted.
Qed.

(** On a list that is already ascending the sort changes nothing. *)
Lemma sorted_by_start_id l :
  StronglySorted le_start l → sorted_by_start l = l.
Proof.
  induction 1 as [|x l Hl IH Hx]; simpl; [done|]. rewrite IH.
  destruct Hx as [|y l Hxy _]; simpl; [done|].
  unfold le_start in Hxy. by rewrite (proj2 (Z.leb_le _ _) Hxy).
Qed.

(** ** Consolidation: invariants of the result *)

Lemma consolidate_findings_ok l : accepted_ok (consolidate_findings l).
Proof.
  unfold consolidate_findings. destruct l as [|x l].
  - split; constructor.
  - apply consolidate_fold_ok.
    + apply sorted_by_start_sorted.
    + split; constructor.
    + intros e c He. by apply elem_of_nil in He.
Qed.

Lemma pairwise_non_overlapping_sorted l :
  pairwise_non_overlapping l ↔ StronglySorted apart l.
Proof. symmetry. apply (StronglySorted_lookup_sym apart). Qed.

Lemma ascending_by_start_sorted l :
  ascending_by_start l ↔ StronglySorted le_start l.
Proof. by rewrite StronglySorted_lookup. Qed.

(** C2. For every input list, no two findings of the list returned by
    [consolidate_findings] overlap under the closed-interval test
    [a.start <= b.end and a.end >= b.start]; chains of three or more
    overlapping inputs are no exception. *)
Theorem consolidate_findings_non_overlapping (l : list PIIFinding) :
  pairwise_non_overlapping (consolidate_findings l).
Proof. apply pairwise_non_overlapping_sorted, consolidate_findings_ok. Qed.

(** C7. For every input list, the list returned by
    [consolidate_findings] is ascending by [start]: a winning candidate
    is appended at the end, and by then every accepted finding starts no
    later than it does, so no final sort is needed. *)
Theorem consolidate_findings_ascending (l : list PIIFinding) :
  ascending_by_start (consolidate_findings l).
Proof. apply ascending_by_start_sorted, consolidate_findings_ok. Qed.

(** On the chain the middle finding replaces the first and then beats
    the third. *)
Example consolidate_findings_chain :
  consolidate_findings chain_findings
  = [ {| entity_type := "ORG"; start := 3; end_ := 8; score := 0.9%float;
         text := "n Doe"; analysis_explanation := None |} ].
Proof. reflexivity. Qed.

(** ** Consolidation keeps only findings it was given *)

Lemma consolidate_step_submseteq acc f :
  consolidate_step acc f ⊆+ (acc ++ [f])%list.
Proof.
  destruct (consolidate_step_cases acc f)
    as [[_ ->]|(l1 & o & l2 & -> & _ & _ & [[_ ->]|[_ ->]])].
  - done.
  - apply submseteq_skips_r, submseteq_skips_l, submseteq_cons. done.
  - by apply submseteq_inserts_r.
Qed.

Lemma consolidate_fold_submseteq rest : ∀ acc,
  foldl consolidate_step acc rest ⊆+ (acc ++ rest)%list.
Proof.
  induction rest as [|f rest IH]; intros acc; simpl.
  - by rewrite app_nil_r.
  - etrans; [apply IH|].
    rewrite (cons_middle f acc rest), (assoc_L (++)%list).
    apply submseteq_skips_r, consolidate_step_submseteq.
Qed.

(** C10. Consolidation neither invents nor alters findings: the returned
    list is a sub-multiset of the input, so every returned finding is an
    input finding, all fields included, and the returned list is no
    longer than the input. *)
Theorem consolidate_findings_submseteq (l : list PIIFinding) :
  consolidate_findings l ⊆+ l
  ∧ (∀ f, f ∈ consolidate_findings l → f ∈ l)
  ∧ (length (consolidate_findings l) ≤ length l)%nat.
Proof.
  assert (consolidate_findings l ⊆+ l) as Hsub.
  { unfold consolidate_findings. destruct l as [|x l]; [done|].
    etrans; [apply consolidate_fold_submseteq|].
    rewrite app_nil_l. by rewrite (sorted_by_start_perm (x :: l)). }
  split_and!; [done| |by apply submseteq_length].
  intros f Hf. by eapply elem_of_submseteq.
Qed.

(** ** Consolidation of a list that needs none *)

Lemma consolidate_fold_apart rest : ∀ acc,
  StronglySorted apart (acc ++ rest) →
  foldl consolidate_step acc rest = (acc ++ rest)%list.
Proof.
  induction rest as [|f rest IH]; intros acc Hall; simpl.
  - by rewrite app_nil_r.
  - assert (first_overlapping f acc = None) as Hscan.
    { apply first_overlapping_None, Forall_forall. intros e He. symmetry.
      eapply StronglySorted_app_1_elem_of; [done..|by left]. }
    unfold consolidate_step at 2. rewrite Hscan.
    rewrite IH; rewrite <-(assoc_L (++)%list); done.
Qed.

(** C8. Consolidation is the identity on a list that is ascending by
    [start] and pairwise non-overlapping under the closed-interval test:
    the same findings come back in the same order. *)
Theorem consolidate_findings_idempotent (l : list PIIFinding) :
  ascending_by_start l →
  pairwise_non_overlapping l →
  consolidate_findings l = l.
Proof.
  intros Hasc%ascending_by_start_sorted Hapart%pairwise_non_overlapping_sorted.
  unfold consolidate_findings. destruct l as [|x l]; [done|].
  rewrite sorted_by_start_id by done. by apply consolidate_fold_apart.
Qed.

(** ** Comparison of scores *)

Lemma SFcompare_antisym x y :
  SFcompare y x = CompOpp <$> SFcompare x y.
Proof.
  destruct x as [sx|sx| |sx mx ex], y as [sy|sy| |sy my ey]; simpl;
    try done; try (by destruct sx); try (by destruct sy);
    try (by destruct sx, sy).
  f_equal. destruct sx, sy; simpl; try done.
  - rewrite (Z.compare_antisym ex ey).
    destruct (ex ?= ey); simpl; try done.
    f_equal. symmetry. exact (Pos.compare_cont_antisym mx my Eq).
  - rewrite (Z.compare_antisym ex ey).
    destruct (ex ?= ey); simpl; try done.
    symmetry. exact (Pos.compare_cont_antisym mx my Eq).
Qed.

(** [<] on floats is asymmetric. *)
Lemma float_ltb_asym (x y : float) :
  (x <? y)%float = true → (y <? x)%float = false.
Proof.
  rewrite !FloatAxioms.ltb_spec. unfold SFltb.
  rewrite (SFcompare_antisym (Prim2SF x) (Prim2SF y)).
  by destruct (SFcompare (Prim2SF x) (Prim2SF y)) as [[]|].
Qed.

(** Two floats that are not NaN and not [==] are ordered one way. *)
Lemma float_ltb_total (x y : float) :
  PrimFloat.is_nan x = false → PrimFloat.is_nan y = false →
  (x =? y)%float = false →
  (x <? y)%float = true ∨ (y <? x)%float = true.
Proof.
  unfold PrimFloat.is_nan. rewrite !negb_false_iff, !FloatAxioms.ltb_spec, !FloatAxioms.eqb_spec.
  unfold SFltb, SFeqb. rewrite (SFcompare_antisym (Prim2SF x) (Prim2SF y)).
  destruct (Prim2SF x) as [sx|sx| |sx mx ex], (Prim2SF y) as [sy|sy| |sy my ey];
    simpl; try done;
    repeat match goal with
    | |- context [match ?c with Eq => _ | Lt => _ | Gt => _ end] => destruct c; simpl
    | |- context [if ?b then _ else _] => destruct b; simpl
    end; auto.
Qed.

(** ** Two overlapping findings *)

Lemma consolidate_fold_pair x y :
  overlaps y x = true →
  foldl consolidate_step [] [x; y] = if (score x <? score y)%float then [y] else [x].
Proof.
  intros Hyx. simpl. unfold consolidate_step at 1. simpl. rewrite Hyx.
  destruct (score x <? score y)%float; [|done].
  simpl. by rewrite finding_eqb_refl.
Qed.

Lemma consolidate_pair_keeps_higher hi lo :
  overlaps hi lo = true →
  (score lo <? score hi)%float = true →
  consolidate_findings [hi; lo] = [hi] ∧ consolidate_findings [lo; hi] = [hi].
Proof.
  intros Hov Hlt. pose proof (float_ltb_asym _ _ Hlt) as Hgt.
  assert (overlaps lo hi = true) as Hov' by by rewrite overlaps_sym.
  unfold consolidate_findings, sorted_by_start. simpl.
  split.
  - destruct (start hi <=? start lo);
      rewrite consolidate_fold_pair by done; by rewrite ?Hlt, ?Hgt.
  - destruct (start lo <=? start hi);
      rewrite consolidate_fold_pair by done; by rewrite ?Hlt, ?Hgt.
Qed.

(** C6. For an input of exactly two findings that overlap under the
    closed-interval test (touching spans included) and whose scores are
    distinct numbers, the consolidated output holds exactly one finding,
    the one with the higher score. *)
Theorem consolidate_findings_pair (a b : PIIFinding) :
  overlaps a b = true →
  PrimFloat.is_nan (score a) = false →
  PrimFloat.is_nan (score b) = false →
  (score a =? score b)%float = false →
  ∃ hi lo, ([a; b] = [hi; lo] ∨ [a; b] = [lo; hi]) ∧
           (score lo <? score hi)%float = true ∧
           consolidate_findings [a; b] = [hi].
Proof.
  intros Hov Ha Hb Hne.
  destruct (float_ltb_total _ _ Ha Hb Hne) as [Hlt|Hlt].
  - exists b, a. split_and!; [by right|done|].
    apply consolidate_pair_keeps_higher; [by rewrite overlaps_sym|done].
  - exists a, b. split_and!; [by left|done|].
    by apply consolidate_pair_keeps_higher.
Qed.

Lemma consolidate_findings_pair_witness :
  ∃ hi lo, ([touching_low; touching_high] = [hi; lo]
            ∨ [touching_low; touching_high] = [lo; hi]) ∧
           (score lo <? score hi)%float = true ∧
           consolidate_findings [touching_low; touching_high] = [hi].
Proof.
  apply consolidate_findings_pair; reflexivity.
Defined.

Example consolidate_findings_touching :
  consolidate_findings [touching_low; touching_high] = [touching_high]
  ∧ consolidate_findings [touching_high; touching_low] = [touching_high].
Proof. split; reflexivity. Qed.

Lemma consolidate_findings_idempotent_witness :
  consolidate_findings [apart_first; apart_second] = [apart_first; apart_second].
Proof.
  apply consolidate_findings_idempotent.
  - apply ascending_by_start_sorted. repeat constructor. unfold le_start. simpl. lia.
  - apply pairwise_non_overlapping_sorted. repeat constructor.
Defined.

(** ** The scenario over "John Doe is here" *)

(** The scenario as C5 words it does not hold: the consolidated list is
    the one expected, but the anonymized text keeps " Doe". *)
Lemma scenario_anonymized_text_differs :
  ¬ (consolidate_findings [scenario_person "John" None; scenario_org "hn D" None]
       = [scenario_person "John" None]
     ∧ anonymize scenario_text
         (consolidate_findings [scenario_person "John" None; scenario_org "hn D" None])
       = "[PERSON] is here").
Proof. intros [_ H]. vm_compute in H. discriminate H. Qed.

(** C5, amended. The findings [{PERSON,0,4,0.9}, {ORG,2,6,0.6}]
    consolidate to [{PERSON,0,4,0.9}], whatever their other fields, and
    anonymizing "John Doe is here" with the consolidated list replaces
    the four characters of the span only: the result is
    "[PERSON] Doe is here". *)
Theorem scenario_consolidate_anonymize (t1 t2 : string)
    (e1 e2 : option (gmap string PyVal)) :
  consolidate_findings [scenario_person t1 e1; scenario_org t2 e2]
    = [scenario_person t1 e1]
  ∧ anonymize scenario_text
      (consolidate_findings [scenario_person t1 e1; scenario_org t2 e2])
    = "[PERSON] Doe is here".
Proof.
  assert (consolidate_findings [scenario_person t1 e1; scenario_org t2 e2]
          = [scenario_person t1 e1]) as Hcons by reflexivity.
  split; [done|]. rewrite Hcons. reflexivity.
Qed.

(** ** Hybrid mode *)

Lemma hybrid_engine_findings env key name analyze request st :
  (hybrid_engine env key name analyze request st).1
  = (st.1 ++ contribution env key analyze request)%list.
Proof.
  unfold hybrid_engine, contribution.
  destruct (loaded env key); [|by rewrite app_nil_r].
  destruct (analyze env request); [done|by rewrite app_nil_r].
Qed.

Lemma hybrid_collect_findings env request :
  (hybrid_collect env request).1 = surviving_findings env request.
Proof.
  unfold hybrid_collect, surviving_findings.
  rewrite !hybrid_engine_findings. simpl. by rewrite (assoc_L (++)%list).
Qed.

Lemma loaded_false env key :
  nlp_models env !! key = None → loaded env key = false.
Proof.
  intros H. unfold loaded. rewrite H. apply bool_decide_eq_false. by intros [? ?].
Qed.

Lemma loaded_true env key m :
  nlp_models env !! key = Some m → loaded env key = true.
Proof. intros H. unfold loaded. rewrite H. apply bool_decide_eq_true. by eexists. Qed.

(** With an empty registry the hybrid endpoint does not fail. *)
Lemma analyze_hybrid_empty_registry_returns :
  ¬ ∃ e, analyze_hybrid empty_env scenario_request = Raise e.
Proof. intros [e H]. vm_compute in H. discriminate H. Qed.

(** C1, amended. When none of the three engines is loaded, the hybrid
    endpoint returns a result: no findings, the request text unchanged as
    the anonymized text, and "hybrid" as the engine. *)
Theorem analyze_hybrid_no_engine (env : Env) (request : AnalysisRequest) :
  nlp_models env !! "presidio_analyzer" = None →
  nlp_models env !! "spacy" = None →
  nlp_models env !! "transformers_pipeline" = None →
  analyze_hybrid env request
  = Return {| findings := [];
              anonymized_text := req_text request;
              processing_engine := "hybrid" |}.
Proof.
  intros Hp%loaded_false Hs%loaded_false Ht%loaded_false.
  unfold analyze_hybrid. rewrite hybrid_collect_findings.
  unfold surviving_findings, contribution. by rewrite Hp, Hs, Ht.
Qed.

Lemma analyze_hybrid_no_engine_witness :
  analyze_hybrid empty_env scenario_request
  = Return {| findings := [];
              anonymized_text := scenario_text;
              processing_engine := "hybrid" |}.
Proof. apply (analyze_hybrid_no_engine empty_env scenario_request); reflexivity. Defined.

(** ** Which findings reach the caller *)

(** The single-engine transformers endpoint returns both touching
    findings; consolidation would keep one. *)
Lemma single_engine_findings_not_consolidated :
  ∃ r, analyze_with_transformers transformers_env johnson_request = Return r
       ∧ findings r = omap (transformers_finding default_config) touching_groups
       ∧ findings r
         ≠ consolidate_findings (omap (transformers_finding default_config) touching_groups).
Proof.
  eexists. split_and!; [reflexivity|reflexivity|].
  intros H. apply (f_equal length) in H. vm_compute in H. discriminate H.
Qed.

Lemma analyze_with_spacy_returns env request nlp ents :
  nlp_models env !! "spacy" = Some (SpacyLanguage nlp) →
  nlp (req_text request) = Return ents →
  analyze_with_spacy env request
  = Return {| findings := omap (spacy_finding env (config_of request)) ents;
              anonymized_text :=
                anonymize (req_text request)
                  (omap (spacy_finding env (config_of request)) ents);
              processing_engine := "spacy" |}.
Proof.
  intros Hm Hents. unfold analyze_with_spacy, registry_get.
  rewrite (loaded_true _ _ _ Hm), Hm. simpl. by rewrite Hents.
Qed.

Lemma analyze_with_transformers_returns env request pipeline results :
  nlp_models env !! "transformers_pipeline" = Some (NerPipeline pipeline) →
  pipeline (req_text request) = Return results →
  analyze_with_transformers env request
  = Return {| findings := omap (transformers_finding (config_of request)) results;
              anonymized_text :=
                anonymize (req_text request)
                  (omap (transformers_finding (config_of request)) results);
              processing_engine := "transformers" |}.
Proof.
  intros Hm Hres. unfold analyze_with_transformers, registry_get.
  rewrite (loaded_true _ _ _ Hm), Hm. simpl. by rewrite Hres.
Qed.

(** C3, amended. In hybrid mode the findings returned are
    [consolidate_findings] of the concatenated findings of the engines
    that survived, and the anonymizer runs on the consolidated list. In
    single-engine mode (spaCy, transformers) the findings returned are
    the detected findings as they are, with no consolidation, and the
    anonymizer runs on them directly. *)
Theorem findings_returned (env : Env) (request : AnalysisRequest) :
  analyze_hybrid env request
  = Return {| findings := consolidate_findings (surviving_findings env request);
              anonymized_text :=
                anonymize (req_text request)
                  (consolidate_findings (surviving_findings env request));
              processing_engine := "hybrid" |}
  ∧ (∀ nlp ents,
       nlp_models env !! "spacy" = Some (SpacyLanguage nlp) →
       nlp (req_text request) = Return ents →
       analyze_with_spacy env request
       = Return {| findings := omap (spacy_finding env (config_of request)) ents;
                   anonymized_text :=
                     anonymize (req_text request)
                       (omap (spacy_finding env (config_of request)) ents);
                   processing_engine := "spacy" |})
  ∧ (∀ pipeline results,
       nlp_models env !! "transformers_pipeline" = Some (NerPipeline pipeline) →
       pipeline (req_text request) = Return results →
       analyze_with_transformers env request
       = Return {| findings := omap (transformers_finding (config_of request)) results;
                   anonymized_text :=
                     anonymize (req_text request)
                       (omap (transformers_finding (config_of request)) results);
                   processing_engine := "transformers" |}).
Proof.
  split_and!.
  - unfold analyze_hybrid. by rewrite hybrid_collect_findings.
  - apply analyze_with_spacy_returns.
  - apply analyze_with_transformers_returns.
Qed.

Lemma findings_returned_witness :
  findings <$> analyze_with_spacy two_engine_env johnson_request
  = Return (omap (spacy_finding two_engine_env default_config) johnson_ents)
  ∧ findings <$> analyze_with_transformers two_engine_env johnson_request
    = Return (omap (transformers_finding default_config) touching_groups).
Proof.
  destruct (findings_returned two_engine_env johnson_request) as (_ & Hs & Ht).
  split.
  - by rewrite (Hs (λ _, Return johnson_ents) johnson_ents eq_refl eq_refl).
  - by rewrite (Ht (λ _, Return touching_groups) touching_groups eq_refl eq_refl).
Defined.

(** ** The benchmark *)

Lemma benchmark_engine_results env key name analyze request st :
  results (benchmark_engine env key name analyze request st)
  = if loaded env key then
      match analyze env {| req_text := bench_text request; req_config := None |} with
      | Return result => <[name := result]> (results st)
      | Raise _ => results st
      end
    else results st.
Proof.
  unfold benchmark_engine. destruct (loaded env key); [|done].
  by destruct (analyze env _).
Qed.

Lemma findings_count_stored results name r :
  results !! name = Some r → findings_count results name = Raise no_attribute_get.
Proof. intros H. unfold findings_count, results_get. by rewrite H. Qed.

Lemma findings_count_absent results name :
  results !! name = None → findings_count results name = Return 0.
Proof. intros H. unfold findings_count, results_get. by rewrite H. Qed.

Lemma accuracy_comparison_raises results :
  is_Some (results !! "presidio") ∨ is_Some (results !! "spacy")
    ∨ is_Some (results !! "transformers") →
  accuracy_comparison results = Raise no_attribute_get.
Proof.
  intros H. unfold accuracy_comparison.
  destruct (results !! "presidio") as [p|] eqn:Hp.
  { by rewrite (findings_count_stored _ _ _ Hp). }
  rewrite (findings_count_absent _ _ Hp). simpl.
  destruct (results !! "spacy") as [s|] eqn:Hs.
  { by rewrite (findings_count_stored _ _ _ Hs). }
  rewrite (findings_count_absent _ _ Hs). simpl.
  destruct (results !! "transformers") as [t|] eqn:Ht.
  { by rewrite (findings_count_stored _ _ _ Ht). }
  destruct H as [[? ?]|[[? ?]|[? ?]]]; done.
Qed.

(** As soon as one engine's call returns, the benchmark raises: the
    stored result is a model, and the accuracy comparison calls [get]
    on it. *)
Lemma benchmark_engines_raises env request :
  engine_succeeds env "presidio_analyzer" analyze_with_presidio request
  ∨ engine_succeeds env "spacy" analyze_with_spacy request
  ∨ engine_succeeds env "transformers_pipeline" analyze_with_transformers request →
  benchmark_engines env request = Raise no_attribute_get.
Proof.
  intros H. unfold benchmark_engines.
  rewrite accuracy_comparison_raises; [done|].
  unfold benchmark_collect. rewrite !benchmark_engine_results. simpl.
  unfold engine_succeeds in H.
  destruct H as [[-> H]|[[-> H]|[-> H]]];
    repeat match goal with
    | |- context [match ?m with Return _ => _ | Raise _ => _ end] => destruct m
    | |- context [if ?b then _ else _] => destruct b
    end; simpl in H; try done; simplify_map_eq; eauto.
Qed.

(** C4 fails on the code. With spaCy failing and the transformers
    pipeline succeeding, the benchmark does not return a result with a
    sentinel for spaCy: it raises [AttributeError]. *)
Theorem benchmark_engines_aborts :
  benchmark_engines benchmark_env benchmark_request = Raise no_attribute_get.
Proof.
  apply benchmark_engines_raises. right. right. split; reflexivity.
Qed.

(** The benchmark returns only when no engine's call returns; then the
    result map is empty and every count is zero. *)
Lemma benchmark_engines_empty_registry request :
  ∃ perf,
    benchmark_engines empty_env request
    = Return {| engine_results := ∅; response_performance := perf |}
    ∧ perf !! "accuracy_comparison"
      = Some (Comparison (list_to_map [("presidio_findings", 0); ("spacy_findings", 0);
                                       ("transformers_findings", 0)])).
Proof. eexists. split; reflexivity. Qed.

(** ** The length law of the anonymizer *)

#[local] Instance disjoint_sym : Symmetric disjoint.
Proof. intros a b. unfold disjoint. tauto. Qed.


Lemma string_length_app (s1 s2 : string) :
  String.length (s1 ++ s2) = (String.length s1 + String.length s2)%nat.
Proof. induction s1 as [|c s1 IH]; simpl; [done|]. by rewrite IH. Qed.

Lemma string_take_length (n : nat) (s : string) :
  (n ≤ String.length s)%nat → String.length (string_take n s) = n.
Proof.
  revert s. induction n as [|n IH]; intros [|c s]; simpl; intros H;
    try done; try lia.
  rewrite IH; lia.
Qed.

Lemma string_drop_length (n : nat) (s : string) :
  String.length (string_drop n s) = (String.length s - n)%nat.
Proof.
  revert s. induction n as [|n IH]; intros [|c s]; by simpl.
Qed.

Lemma slice_bound_in_range (len : nat) (i : Z) :
  0 ≤ i ≤ Z.of_nat len → slice_bound len i = Z.to_nat i.
Proof.
  intros H. unfold slice_bound.
  destruct (Z.ltb_spec i 0); [lia|]. f_equal. lia.
Qed.

Lemma anonymize_step_length (cur : string) (f : PIIFinding) :
  0 ≤ start f → start f ≤ end_ f → end_ f ≤ Z.of_nat (String.length cur) →
  Z.of_nat (String.length (anonymize_step cur f))
  = Z.of_nat (String.length cur) - (end_ f - start f)
    + Z.of_nat (String.length (replacement f)).
Proof.
  intros H0 Hse Hlen. unfold anonymize_step, str_to, str_from.
  rewrite !slice_bound_in_range by lia.
  rewrite !string_length_app, string_take_length, string_drop_length by lia.
  lia.
Qed.

Lemma anonymize_fold_length rest : ∀ cur,
  Forall (valid_offsets cur) rest →
  StronglySorted ends_before rest →
  Z.of_nat (String.length (foldl anonymize_step cur rest))
  = Z.of_nat (String.length cur) - removed_length rest + inserted_length rest.
Proof.
  induction rest as [|f rest IH]; intros cur Hvalid Hchain; [simpl; lia|].
  unfold removed_length, inserted_length. cbn [foldl foldr].
  fold (removed_length rest) (inserted_length rest).
  apply Forall_cons in Hvalid as [(Hf0 & Hfse & Hflen) Hvalid].
  apply StronglySorted_cons in Hchain as [Hf Hchain].
  pose proof (anonymize_step_length cur f ltac:(lia) ltac:(lia) ltac:(lia)) as Hstep.
  rewrite IH; [lia| |done].
  rewrite Forall_forall in Hvalid, Hf. apply Forall_forall. intros g Hg.
  destruct (Hvalid g Hg) as (Hg0 & Hgse & _). specialize (Hf g Hg).
  unfold valid_offsets, ends_before in *. lia.
Qed.

Lemma insert_by_start_desc_perm x l : insert_by_start_desc x l ≡ₚ x :: l.
Proof.
  induction l as [|y l IH]; simpl; [done|].
  destruct (start y <=? start x); [done|]. rewrite IH. apply Permutation_swap.
Qed.

Lemma sorted_by_start_desc_perm l : sorted_by_start_desc l ≡ₚ l.
Proof.
  induction l as [|x l IH]; simpl; [done|].
  by rewrite insert_by_start_desc_perm, IH.
Qed.

#[local] Instance removed_length_perm : Proper ((≡ₚ) ==> (=)) removed_length.
Proof.
  induction 1 as [|x l1 l2 _ IH|x y l|l1 l2 l3 _ IH1 _ IH2];
    unfold removed_length in *; simpl in *; lia.
Qed.

#[local] Instance inserted_length_perm : Proper ((≡ₚ) ==> (=)) inserted_length.
Proof.
  induction 1 as [|x l1 l2 _ IH|x y l|l1 l2 l3 _ IH1 _ IH2]; try done.
  - unfold inserted_length in *. cbn [foldr]. lia.
  - unfold inserted_length. cbn [foldr]. lia.
  - lia.
Qed.

(** Among findings with non-empty, pairwise disjoint spans, the one that
    starts later lies wholly after the other. *)
Lemma insert_by_start_desc_chain x l :
  start x < end_ x →
  Forall (λ y, start y < end_ y) l →
  Forall (disjoint x) l →
  StronglySorted ends_before l →
  StronglySorted ends_before (insert_by_start_desc x l).
Proof.
  intros Hx Hne Hdis Hchain.
  induction Hchain as [|y l Hl IH Hy]; simpl; [by repeat constructor|].
  apply Forall_cons in Hne as [Hyne Hne]. apply Forall_cons in Hdis as [Hxy Hdis].
  destruct (Z.leb_spec (start y) (start x)) as [Hle|Hgt].
  - constructor; [by constructor|]. constructor.
    + unfold ends_before, disjoint in *. lia.
    + rewrite Forall_forall in Hy, Hne, Hdis. apply Forall_forall. intros z Hz.
      specialize (Hy z Hz). specialize (Hne z Hz). specialize (Hdis z Hz).
      unfold ends_before, disjoint in *. lia.
  - constructor; [by apply IH|].
    rewrite insert_by_start_desc_perm. constructor; [|done].
    unfold ends_before, disjoint in *. lia.
Qed.

Lemma sorted_by_start_desc_chain l :
  Forall (λ y, start y < end_ y) l →
  StronglySorted disjoint l →
  StronglySorted ends_before (sorted_by_start_desc l).
Proof.
  intros Hne Hdis. induction Hdis as [|x l Hl IH Hx]; simpl; [constructor|].
  apply Forall_cons in Hne as [Hxne Hne].
  apply insert_by_start_desc_chain; [done| | |by apply IH].
  - by rewrite sorted_by_start_desc_perm.
  - by rewrite sorted_by_start_desc_perm.
Qed.

(** C9. Length law of the anonymizer: for findings with valid offsets
    ([0 <= start < end <= len(text)]) and pairwise disjoint spans,
    [len(anonymized) = len(text) - sum (end - start)
                       + sum len("[" + entity_type + "]")];
    and with no finding the text comes back unchanged. *)
Theorem anonymize_length (text : string) (fs : list PIIFinding) :
  (Forall (valid_offsets text) fs →
   pairwise_disjoint fs →
   Z.of_nat (String.length (anonymize text fs))
   = Z.of_nat (String.length text) - removed_length fs + inserted_length fs)
  ∧ anonymize text [] = text.
Proof.
  split; [|done]. intros Hvalid Hdis%(StronglySorted_lookup_sym disjoint).
  unfold anonymize. rewrite anonymize_fold_length.
  - by rewrite !sorted_by_start_desc_perm.
  - by rewrite sorted_by_start_desc_perm.
  - apply sorted_by_start_desc_chain; [|done].
    eapply Forall_impl; [done|]. unfold valid_offsets. intros f. lia.
Qed.

Lemma anonymize_length_witness :
  Z.of_nat (String.length (anonymize scenario_text [scenario_person "John" None; scenario_doe]))
  = Z.of_nat (String.length scenario_text)
    - removed_length [scenario_person "John" None; scenario_doe]
    + inserted_length [scenario_person "John" None; scenario_doe].
Proof.
  apply (anonymize_length scenario_text [scenario_person "John" None; scenario_doe]).
  - repeat constructor; simpl; lia.
  - refine (proj1 (StronglySorted_lookup_sym disjoint _) _). repeat constructor.
    unfold disjoint. simpl. lia.
Defined.

Example anonymize_two_findings :
  anonymize scenario_text [scenario_person "John" None; scenario_doe]
  = "[PERSON] [PERSON] is here".
Proof. reflexivity. Qed.

(** * Further properties of the code *)

(** ** Consolidation *)

(** X1. Consolidating twice is the same as consolidating once: the
    output of [consolidate_findings] is a fixed point of it, for every
    input. *)
Theorem consolidate_findings_twice (l : list PIIFinding) :
  consolidate_findings (consolidate_findings l) = consolidate_findings l.
Proof.
  destruct (consolidate_findings_ok l) as [Hsorted Hapart].
  unfold consolidate_findings at 1.
  destruct (consolidate_findings l) as [|x out] eqn:Hout; [done|].
  rewrite sorted_by_start_id by done. by apply consolidate_fold_apart.
Qed.

Lemma consolidate_step_nonempty acc f : consolidate_step acc f ≠ [].
Proof.
  destruct (consolidate_step_cases acc f)
    as [[_ ->]|(l1 & o & l2 & -> & _ & _ & [[_ ->]|[_ ->]])];
    intros H; by repeat (apply app_eq_nil in H as [? H]).
Qed.

Lemma consolidate_fold_nonempty rest : ∀ acc,
  acc ≠ [] → foldl consolidate_step acc rest ≠ [].
Proof.
  induction rest as [|f rest IH]; intros acc Hacc; simpl; [done|].
  apply IH, consolidate_step_nonempty.
Qed.

(** X2. Consolidation never drops everything: a non-empty input gives a
    non-empty output. *)
Theorem consolidate_findings_nonempty (l : list PIIFinding) :
  l ≠ [] → consolidate_findings l ≠ [].
Proof.
  intros Hl. unfold consolidate_findings. destruct l as [|x l]; [done|].
  destruct (sorted_by_start (x :: l)) as [|y rest] eqn:Hs.
  - apply (f_equal length) in Hs.
    rewrite (Permutation_length (sorted_by_start_perm (x :: l))) in Hs. done.
  - simpl. apply consolidate_fold_nonempty, consolidate_step_nonempty.
Qed.

Lemma consolidate_findings_nonempty_witness :
  consolidate_findings chain_findings ≠ [].
Proof. apply consolidate_findings_nonempty. done. Defined.

Lemma float_ltb_irrefl (x : float) : (x <? x)%float = false.
Proof.
  destruct (x <? x)%float eqn:H; [|done]. by rewrite (float_ltb_asym _ _ H) in H.
Qed.

Lemma consolidate_step_elem_of acc f e :
  e ∈ consolidate_step acc f → e ∈ acc ∨ e = f.
Proof.
  intros He. eapply elem_of_submseteq in He; [|apply consolidate_step_submseteq].
  apply elem_of_app in He as [?|He]; [by left|].
  apply list_elem_of_singleton in He. by right.
Qed.

(** An accepted finding stays as long as no candidate has a greater score. *)
Lemma consolidate_step_stays acc f m :
  m ∈ acc → (score m <? score f)%float = false → m ∈ consolidate_step acc f.
Proof.
  intros Hm Hnot.
  destruct (consolidate_step_cases acc f)
    as [[_ ->]|(l1 & o & l2 & -> & _ & _ & [[Hlt ->]|[_ ->]])].
  - apply elem_of_app. by left.
  - apply elem_of_app. left. apply elem_of_app.
    apply elem_of_app in Hm as [?|[->|?]%elem_of_cons]; [by left|congruence|by right].
  - done.
Qed.

(** A candidate that beats every accepted finding but itself is accepted. *)
Lemma consolidate_step_enters acc m :
  (∀ o, o ∈ acc → o = m ∨ (score o <? score m)%float = true) →
  m ∈ consolidate_step acc m.
Proof.
  intros Hbeats.
  destruct (consolidate_step_cases acc m)
    as [[_ ->]|(l1 & o & l2 & -> & _ & _ & [[_ ->]|[Hnot ->]])].
  - apply elem_of_app. right. by left.
  - apply elem_of_app. right. by left.
  - assert (o ∈ (l1 ++ o :: l2)%list) as Ho.
    { apply elem_of_app. right. by left. }
    destruct (Hbeats o Ho) as [->|Hlt]; [done|congruence].
Qed.

Lemma consolidate_fold_keeps_top m rest : ∀ acc,
  (∀ f, f ∈ acc ∨ f ∈ rest → f = m ∨ (score f <? score m)%float = true) →
  m ∈ acc ∨ m ∈ rest →
  m ∈ foldl consolidate_step acc rest.
Proof.
  induction rest as [|f rest IH]; intros acc Hbeats Hm; simpl.
  { destruct Hm as [?|Hm]; [done|by apply elem_of_nil in Hm]. }
  apply IH.
  - intros g [Hg|Hg].
    + apply consolidate_step_elem_of in Hg as [Hg| ->]; apply Hbeats; auto.
      right. by left.
    + apply Hbeats. right. by right.
  - destruct Hm as [Hm|[->|Hm]%elem_of_cons].
    + left. apply consolidate_step_stays; [done|].
      destruct (Hbeats f) as [->|Hlt]; [right; by left| |].
      * apply float_ltb_irrefl.
      * by apply float_ltb_asym.
    + left. apply consolidate_step_enters. intros o Ho. apply Hbeats. by left.
    + by right.
Qed.

(** X3. A finding whose score is strictly greater than the score of
    every other input finding is always among the consolidated
    findings. *)
Theorem consolidate_findings_keeps_top (l : list PIIFinding) (m : PIIFinding) :
  m ∈ l →
  (∀ f, f ∈ l → f = m ∨ (score f <? score m)%float = true) →
  m ∈ consolidate_findings l.
Proof.
  intros Hm Hbeats. unfold consolidate_findings.
  destruct l as [|x l]; [by apply elem_of_nil in Hm|].
  apply consolidate_fold_keeps_top.
  - intros f [Hf|Hf]; [by apply elem_of_nil in Hf|].
    apply Hbeats. by rewrite <-(sorted_by_start_perm (x :: l)).
  - right. by rewrite (sorted_by_start_perm (x :: l)).
Qed.

Lemma consolidate_findings_keeps_top_witness :
  chain_middle ∈ consolidate_findings chain_findings.
Proof.
  apply consolidate_findings_keeps_top.
  - right. left.
  - intros f Hf. unfold chain_findings in Hf.
    apply elem_of_cons in Hf as [->|Hf]; [right; reflexivity|].
    apply elem_of_cons in Hf as [->|Hf]; [left; reflexivity|].
    apply elem_of_cons in Hf as [->|Hf]; [right; reflexivity|].
    by apply elem_of_nil in Hf.
Defined.

(** X4. Of two overlapping findings, the one that comes later in start
    order is dropped unless its score is strictly greater. With equal
    starts the start order is the arrival order, so when neither score
    is greater the first of the input is kept, whichever it is. *)
Theorem consolidate_findings_pair_tie (a b : PIIFinding) :
  overlaps a b = true →
  (score a <? score b)%float = false →
  (start a ≤ start b → consolidate_findings [a; b] = [a])
  ∧ (start a < start b → consolidate_findings [b; a] = [a])
  ∧ (start a = start b → (score b <? score a)%float = false →
     consolidate_findings [b; a] = [b]).
Proof.
  intros Hov Hnot.
  assert (overlaps b a = true) as Hov' by by rewrite overlaps_sym.
  unfold consolidate_findings, sorted_by_start. simpl. split_and!.
  - intros Hle. rewrite (proj2 (Z.leb_le _ _) Hle).
    rewrite consolidate_fold_pair by done. by rewrite Hnot.
  - intros Hlt. rewrite (proj2 (Z.leb_gt _ _) Hlt).
    rewrite consolidate_fold_pair by done. by rewrite Hnot.
  - intros Heq Hnot'. rewrite (proj2 (Z.leb_le (start b) (start a))) by lia.
    rewrite consolidate_fold_pair by done. by rewrite Hnot'.
Qed.

Lemma consolidate_findings_pair_tie_witness :
  consolidate_findings [tie_person; tie_org] = [tie_person]
  ∧ consolidate_findings [tie_org; tie_person] = [tie_org].
Proof.
  destruct (consolidate_findings_pair_tie tie_person tie_org eq_refl eq_refl)
    as (H1 & _ & H3).
  split; [apply H1; done|apply H3; done].
Defined.

(** ** Independence of the arrival order *)

Lemma sorted_by_start_permutation l1 l2 :
  starts_identify l1 → l1 ≡ₚ l2 → sorted_by_start l1 = sorted_by_start l2.
Proof.
  intros Hid Hperm.
  apply (StronglySorted_unique_strong le_start);
    [|apply sorted_by_start_sorted..|by rewrite !sorted_by_start_perm].
  intros x1 x2 Hx1 Hx2 H12 H21. apply Hid.
  - by rewrite <-(sorted_by_start_perm l1).
  - by rewrite Hperm, <-(sorted_by_start_perm l2).
  - unfold le_start in *. lia.
Qed.

(** X5. When findings that share a start are identical, the
    consolidated list does not depend on the order in which the input
    findings arrive. *)
Theorem consolidate_findings_permutation (l1 l2 : list PIIFinding) :
  starts_identify l1 → l1 ≡ₚ l2 →
  consolidate_findings l1 = consolidate_findings l2.
Proof.
  intros Hid Hperm. unfold consolidate_findings.
  destruct l1 as [|x1 l1], l2 as [|x2 l2]; [done| | |].
  - by apply Permutation_nil_l in Hperm.
  - by apply Permutation_nil_r in Hperm.
  - by rewrite (sorted_by_start_permutation _ _ Hid Hperm).
Qed.

Lemma consolidate_findings_permutation_witness :
  consolidate_findings chain_findings = consolidate_findings (reverse chain_findings).
Proof.
  apply consolidate_findings_permutation.
  - intros a b Ha Hb. unfold chain_findings in *.
    repeat (apply elem_of_cons in Ha as [->|Ha]);
      repeat (apply elem_of_cons in Hb as [->|Hb]);
      try (by apply elem_of_nil in Ha); try (by apply elem_of_nil in Hb);
      simpl; intros H; done.
  - by rewrite reverse_Permutation.
Defined.

(** ** The anonymizer as one pass over the text *)

Lemma string_app_cons (c : ascii) (s1 s2 : string) :
  String c s1 ++ s2 = String c (s1 ++ s2).
Proof. done. Qed.

Lemma string_take_drop (n : nat) (s : string) :
  string_take n s ++ string_drop n s = s.
Proof.
  revert s. induction n as [|n IH]; intros [|c s]; simpl; try done.
  by rewrite string_app_cons, IH.
Qed.

Lemma string_take_app_le (n : nat) (s1 s2 : string) :
  (n ≤ String.length s1)%nat → string_take n (s1 ++ s2) = string_take n s1.
Proof.
  revert s1. induction n as [|n IH]; intros [|c s1]; simpl; intros H;
    try done; try lia.
  rewrite IH; [done|lia].
Qed.

Lemma string_drop_app_le (n : nat) (s1 s2 : string) :
  (n ≤ String.length s1)%nat →
  string_drop n (s1 ++ s2) = string_drop n s1 ++ s2.
Proof.
  revert s1. induction n as [|n IH]; intros [|c s1]; simpl; intros H;
    try done; try lia.
  apply IH. lia.
Qed.

Lemma string_take_take (n m : nat) (s : string) :
  (n ≤ m)%nat → string_take n (string_take m s) = string_take n s.
Proof.
  revert m s. induction n as [|n IH]; intros [|m] [|c s] H; simpl;
    try done; try lia.
  rewrite IH; [done|lia].
Qed.

Lemma string_drop_take (n m : nat) (s : string) :
  string_drop n (string_take m s) = string_take (m - n) (string_drop n s).
Proof.
  revert m s. induction n as [|n IH]; intros [|m] [|c s]; simpl; try done.
  by destruct (m - n)%nat.
Qed.

Lemma string_app_assoc (s1 s2 s3 : string) : (s1 ++ s2) ++ s3 = s1 ++ s2 ++ s3.
Proof.
  induction s1 as [|c s1 IH]; [done|]. by rewrite !string_app_cons, IH.
Qed.

Lemma string_length_ge_take (n : nat) (s t : string) :
  (n ≤ String.length t)%nat → string_take n s = string_take n t →
  (n ≤ String.length s)%nat.
Proof.
  intros Hn Heq. rewrite <-(string_take_drop n s), string_length_app, Heq.
  rewrite string_take_length by done. lia.
Qed.

Lemma foldl_foldr_reverse {A B} (f : A → B → A) (a : A) (l : list B) :
  foldl f a l = foldr (λ x acc, f acc x) a (reverse l).
Proof.
  revert a. induction l as [|x l IH]; intros a; simpl; [done|].
  by rewrite reverse_cons, foldr_snoc, IH.
Qed.

Lemma StronglySorted_reverse {A} (R : relation A) (l : list A) :
  StronglySorted R l → StronglySorted (flip R) (reverse l).
Proof.
  induction 1 as [|x l Hl IH Hx]; [constructor|].
  rewrite reverse_cons. apply StronglySorted_snoc; [done|].
  by rewrite Forall_reverse.
Qed.

(** Replacing the spans from the last to the first leaves the text
    before position [pos] alone and renders the rest, when every span
    lies at or after [pos]. *)
Lemma anonymize_foldr_render (text : string) (asc : list PIIFinding) : ∀ pos,
  0 ≤ pos ≤ Z.of_nat (String.length text) →
  Forall (valid_offsets text) asc →
  Forall (λ f, pos ≤ start f) asc →
  StronglySorted ends_before_next asc →
  string_take (Z.to_nat pos) (foldr (λ f acc, anonymize_step acc f) text asc)
  = string_take (Z.to_nat pos) text
  ∧ string_drop (Z.to_nat pos) (foldr (λ f acc, anonymize_step acc f) text asc)
    = render text pos asc.
Proof.
  induction asc as [|f rest IH]; intros pos Hpos Hvalid Hafter Hchain.
  { simpl. split; [done|]. unfold str_from. by rewrite slice_bound_in_range. }
  apply Forall_cons in Hvalid as [(Hf0 & Hfse & Hflen) Hvalid].
  apply Forall_cons in Hafter as [Hposf _].
  apply StronglySorted_cons in Hchain as [Hnext Hchain].
  destruct (IH (end_ f)) as [Htake Hdrop]; [lia|done|done|done|].
  cbn [foldr render].
  set (R' := foldr (λ f acc, anonymize_step acc f) text rest) in *.
  assert (Z.to_nat (end_ f) ≤ String.length R')%nat as Hlen.
  { eapply string_length_ge_take; [|done]. lia. }
  assert (anonymize_step R' f
          = string_take (Z.to_nat (start f)) text
            ++ replacement f ++ render text (end_ f) rest) as ->.
  { unfold anonymize_step, str_to, str_from.
    rewrite !slice_bound_in_range by lia. rewrite Hdrop. f_equal.
    rewrite <-(string_take_take (Z.to_nat (start f)) (Z.to_nat (end_ f)) R') by lia.
    rewrite Htake. apply string_take_take. lia. }
  assert (String.length (string_take (Z.to_nat (start f)) text) = Z.to_nat (start f))
    as Hlen_take by (apply string_take_length; lia).
  split.
  - rewrite string_take_app_le by lia. apply string_take_take. lia.
  - rewrite string_drop_app_le by lia. f_equal.
    unfold str_slice. rewrite !slice_bound_in_range by lia.
    apply string_drop_take.
Qed.

(** X6. The anonymizer, which splices from the last span to the first,
    computes what one pass from left to right computes: for findings
    with valid offsets and pairwise disjoint spans, the text outside
    the spans is kept as it is and each span is replaced by its
    placeholder. *)
Theorem anonymize_render (text : string) (fs : list PIIFinding) :
  Forall (valid_offsets text) fs →
  pairwise_disjoint fs →
  anonymize text fs = render text 0 (reverse (sorted_by_start_desc fs)).
Proof.
  intros Hvalid Hdis%(StronglySorted_lookup_sym disjoint).
  unfold anonymize. rewrite foldl_foldr_reverse.
  destruct (anonymize_foldr_render text (reverse (sorted_by_start_desc fs)) 0)
    as [_ Hrender]; [lia| | | |done].
  - by rewrite Forall_reverse, sorted_by_start_desc_perm.
  - rewrite Forall_reverse, sorted_by_start_desc_perm.
    eapply Forall_impl; [done|]. unfold valid_offsets. intros f. lia.
  - apply (StronglySorted_reverse ends_before), sorted_by_start_desc_chain; [|done].
    eapply Forall_impl; [done|]. unfold valid_offsets. intros f. lia.
Qed.

Lemma anonymize_render_witness :
  anonymize scenario_text [scenario_person "John" None; scenario_doe]
  = render scenario_text 0
      (reverse (sorted_by_start_desc [scenario_person "John" None; scenario_doe])).
Proof.
  apply anonymize_render.
  - repeat constructor; simpl; lia.
  - refine (proj1 (StronglySorted_lookup_sym disjoint _) _). repeat constructor.
    unfold disjoint. simpl. lia.
Defined.

Lemma sorted_by_start_desc_sorted l :
  StronglySorted (flip le_start) (sorted_by_start_desc l).
Proof.
  induction l as [|x l IH]; simpl; [constructor|].
  induction IH as [|y l' Hl' IH' Hy]; simpl; [by repeat constructor|].
  destruct (Z.leb_spec (start y) (start x)) as [Hle|Hgt].
  - constructor; [by constructor|]. constructor; [done|].
    eapply Forall_impl; [done|]. unfold flip, le_start in *. intros z ?. lia.
  - constructor; [done|]. rewrite insert_by_start_desc_perm.
    constructor; [|done]. unfold flip, le_start. lia.
Qed.

(** X7. When findings that share a start are identical, the anonymized
    text does not depend on the order of the findings in the list. *)
Theorem anonymize_permutation (text : string) (l1 l2 : list PIIFinding) :
  starts_identify l1 → l1 ≡ₚ l2 → anonymize text l1 = anonymize text l2.
Proof.
  intros Hid Hperm. unfold anonymize. f_equal.
  apply (StronglySorted_unique_strong (flip le_start));
    [|apply sorted_by_start_desc_sorted..|by rewrite !sorted_by_start_desc_perm].
  intros x1 x2 Hx1 Hx2 H12 H21. apply Hid.
  - by rewrite <-(sorted_by_start_desc_perm l1).
  - by rewrite Hperm, <-(sorted_by_start_desc_perm l2).
  - unfold flip, le_start in *. lia.
Qed.

Lemma anonymize_permutation_witness :
  anonymize scenario_text [scenario_person "John" None; scenario_doe]
  = anonymize scenario_text [scenario_doe; scenario_person "John" None].
Proof.
  apply anonymize_permutation.
  - intros a b Ha Hb.
    repeat (apply elem_of_cons in Ha as [->|Ha]);
      repeat (apply elem_of_cons in Hb as [->|Hb]);
      try (by apply elem_of_nil in Ha); try (by apply elem_of_nil in Hb);
      simpl; intros H; done.
  - apply Permutation_swap.
Defined.

(** ** Errors of the single-engine endpoints *)





(** ** Startup and the health report *)

(** X9. What [health_check] reports after startup: spaCy is loaded
    exactly when [spacy.load] returned; presidio exactly when its import
    and [AnalyzerEngine()] returned, whether or not [AnonymizerEngine()]
    did; transformers exactly when its import, both [from_pretrained]
    calls and [pipeline] returned. No engine's flag depends on the
    loading of another engine. *)
Theorem health_after_startup (loaders : Loaders) (explain : string → PyVal)
    (time : nat → float) :
  models_loaded (health_check (started loaders explain time))
  = list_to_map
      [("spacy", is_return (spacy_load loaders));
       ("presidio",
        is_return (import_presidio loaders) && is_return (new_analyzer loaders));
       ("transformers",
        is_return (import_transformers loaders)
        && match tokenizer_from_pretrained loaders, model_from_pretrained loaders with
           | Return tokenizer, Return model =>
               is_return (new_pipeline loaders model tokenizer)
           | _, _ => false
           end)].
Proof.
  unfold health_check, started, loaded, lifespan_startup. cbn [nlp_models].
  unfold load_transformers_block, load_presidio_block, load_spacy_block,
    importing, assign.
  destruct (spacy_load loaders), (import_presidio loaders), (new_analyzer loaders),
    (new_anonymizer loaders), (import_transformers loaders),
    (tokenizer_from_pretrained loaders) as [tokenizer|],
    (model_from_pretrained loaders) as [model|];
    simplify_map_eq; try done;
    destruct (new_pipeline loaders model tokenizer); by simplify_map_eq.
Qed.

Lemma startup_presidio_anonymizer loaders :
  lifespan_startup loaders ∅ !! "presidio_anonymizer"
  = match import_presidio loaders, new_analyzer loaders, new_anonymizer loaders with
    | Return _, Return _, Return anonymizer => Some anonymizer
    | _, _, _ => None
    end.
Proof.
  unfold lifespan_startup, load_transformers_block, load_presidio_block,
    load_spacy_block, importing, assign.
  destruct (spacy_load loaders), (import_presidio loaders), (new_analyzer loaders),
    (new_anonymizer loaders), (import_transformers loaders),
    (tokenizer_from_pretrained loaders) as [tokenizer|],
    (model_from_pretrained loaders) as [model|];
    simplify_map_eq; try done;
    destruct (new_pipeline loaders model tokenizer); by simplify_map_eq.
Qed.

Lemma startup_presidio_analyzer loaders :
  lifespan_startup loaders ∅ !! "presidio_analyzer"
  = match import_presidio loaders, new_analyzer loaders with
    | Return _, Return analyzer => Some analyzer
    | _, _ => None
    end.
Proof.
  unfold lifespan_startup, load_transformers_block, load_presidio_block,
    load_spacy_block, importing, assign.
  destruct (spacy_load loaders), (import_presidio loaders), (new_analyzer loaders),
    (new_anonymizer loaders), (import_transformers loaders),
    (tokenizer_from_pretrained loaders) as [tokenizer|],
    (model_from_pretrained loaders) as [model|];
    simplify_map_eq; try done;
    destruct (new_pipeline loaders model tokenizer); by simplify_map_eq.
Qed.

(** X10. When at startup [AnalyzerEngine()] returns and
    [AnonymizerEngine()] raises, the analyzer stays in the registry
    without the anonymizer: [health_check] reports presidio as loaded,
    and every call of the presidio endpoint raises status 500 for the
    missing key ['presidio_anonymizer'], before the analyzer is run. *)
Theorem presidio_half_loaded (loaders : Loaders) (explain : string → PyVal)
    (time : nat → float) (request : AnalysisRequest) :
  is_return (import_presidio loaders) = true →
  is_return (new_analyzer loaders) = true →
  is_return (new_anonymizer loaders) = false →
  models_loaded (health_check (started loaders explain time)) !! "presidio" = Some true
  ∧ analyze_with_presidio (started loaders explain time) request
    = Raise (HTTPException 500 "Presidio analysis failed: 'presidio_anonymizer'").
Proof.
  intros Himport Hanalyzer Hanonymizer. split.
  - rewrite health_after_startup, Himport, Hanalyzer. by simplify_map_eq.
  - pose proof (startup_presidio_analyzer loaders) as Ha.
    pose proof (startup_presidio_anonymizer loaders) as Hb.
    destruct (import_presidio loaders); [|done].
    destruct (new_analyzer loaders) as [analyzer|]; [|done].
    destruct (new_anonymizer loaders); [done|].
    unfold analyze_with_presidio, registry_get.
    rewrite (loaded_true (started loaders explain time) _ _ Ha).
    cbn [nlp_models started]. by rewrite Ha, Hb.
Qed.

Lemma presidio_half_loaded_witness :
  models_loaded (health_check (started sample_loaders (λ _, PyNone) (λ _, 0%float)))
    !! "presidio" = Some true
  ∧ analyze_with_presidio (started sample_loaders (λ _, PyNone) (λ _, 0%float))
      scenario_request
    = Raise (HTTPException 500 "Presidio analysis failed: 'presidio_anonymizer'").
Proof. apply presidio_half_loaded; reflexivity. Defined.

(** ** What the single-engine endpoints return *)

Lemma try_except_return {A} (m : Result A) (handler : Exn → Result A) (a : A) :
  (∀ e, handler e ≠ Return a) → try_except m handler = Return a → m = Return a.
Proof. destruct m as [a'|e]; simpl; [done|]. intros H ?. by destruct (H e). Qed.

Lemma analyze_with_spacy_inv env request r :
  analyze_with_spacy env request = Return r →
  ∃ nlp ents,
    nlp_models env !! "spacy" = Some (SpacyLanguage nlp)
    ∧ nlp (req_text request) = Return ents
    ∧ findings r = omap (spacy_finding env (config_of request)) ents.
Proof.
  unfold analyze_with_spacy, registry_get.
  destruct (loaded env "spacy"); simpl; [|done].
  intros H%try_except_return; [|done].
  destruct (nlp_models env !! "spacy") as [[nlp| | | |]|]; simpl in H; try done.
  destruct (nlp (req_text request)) as [ents|] eqn:Hents; simpl in H; [|done].
  injection H as <-. by exists nlp, ents.
Qed.

Lemma analyze_with_transformers_inv env request r :
  analyze_with_transformers env request = Return r →
  ∃ pipeline results,
    nlp_models env !! "transformers_pipeline" = Some (NerPipeline pipeline)
    ∧ pipeline (req_text request) = Return results
    ∧ findings r = omap (transformers_finding (config_of request)) results.
Proof.
  unfold analyze_with_transformers, registry_get.
  destruct (loaded env "transformers_pipeline"); simpl; [|done].
  intros H%try_except_return; [|done].
  destruct (nlp_models env !! "transformers_pipeline") as [[| | |pipeline|]|];
    simpl in H; try done.
  destruct (pipeline (req_text request)) as [results|] eqn:Hres; simpl in H; [|done].
  injection H as <-. by exists pipeline, results.
Qed.

Lemma analyze_with_presidio_inv env request r :
  analyze_with_presidio env request = Return r →
  ∃ analyze native results,
    nlp_models env !! "presidio_analyzer" = Some (AnalyzerEngine analyze)
    ∧ nlp_models env !! "presidio_anonymizer" = Some (AnonymizerEngine native)
    ∧ analyze (req_text request)
        (list_or (entities (config_of request)) presidio_default_entities)
        (language (config_of request)) (confidence_threshold (config_of request))
      = Return results
    ∧ native (req_text request) results = Return (anonymized_text r)
    ∧ findings r = presidio_finding (req_text request) <$> results.
Proof.
  unfold analyze_with_presidio, registry_get.
  destruct (loaded env "presidio_analyzer"); simpl; [|done].
  intros H%try_except_return; [|done].
  destruct (nlp_models env !! "presidio_analyzer") as [[|analyze| | |]|];
    simpl in H; try done;
    destruct (nlp_models env !! "presidio_anonymizer") as [[| |native| |]|];
    simpl in H; try done;
    destruct (analyze _ _ _ _) as [results|] eqn:Hres; simpl in H; try done.
  destruct (native _ _) as [out|] eqn:Hout; simpl in H; [|done].
  injection H as <-. by exists analyze, native, results.
Qed.

(** X11. The spaCy and transformers endpoints apply the confidence
    threshold of the request themselves: every finding they return has
    a score that is at least the threshold. *)
Theorem findings_respect_threshold (env : Env) (request : AnalysisRequest)
    (r : PIIAnalysisResult) (f : PIIFinding) :
  analyze_with_spacy env request = Return r
  ∨ analyze_with_transformers env request = Return r →
  f ∈ findings r →
  (confidence_threshold (config_of request) <=? score f)%float = true.
Proof.
  intros [H|H] Hf.
  - apply analyze_with_spacy_inv in H as (nlp & ents & _ & _ & Hfs).
    rewrite Hfs in Hf. apply list_elem_of_omap in Hf as (ent & _ & Hent).
    unfold spacy_finding in Hent.
    destruct (str_in (label_ ent) _); [|done].
    destruct (confidence_threshold (config_of request) <=? _)%float eqn:Hthr; [|done].
    by injection Hent as <-.
  - apply analyze_with_transformers_inv in H as (pipeline & results & _ & _ & Hfs).
    rewrite Hfs in Hf. apply list_elem_of_omap in Hf as (res & _ & Hres).
    unfold transformers_finding in Hres.
    destruct (confidence_threshold (config_of request) <=? _)%float eqn:Hthr; [|done].
    by injection Hres as <-.
Qed.

Lemma findings_respect_threshold_witness :
  (confidence_threshold (config_of johnson_request) <=? score johnson_org_finding)%float
  = true.
Proof.
  apply (findings_respect_threshold transformers_env johnson_request
           transformers_sample_result johnson_org_finding).
  - right. reflexivity.
  - vm_compute. right. left.
Defined.

Lemma str_slice_length (s : string) (i j : Z) :
  0 ≤ i ≤ j → j ≤ Z.of_nat (String.length s) →
  Z.of_nat (String.length (str_slice s i j)) = j - i.
Proof.
  intros Hij Hj. unfold str_slice. rewrite !slice_bound_in_range by lia.
  rewrite string_take_length; [lia|]. rewrite string_drop_length. lia.
Qed.

(** X12. Every finding returned by the presidio endpoint carries as its
    text the slice [request.text[start:end]] of the request text; when
    its offsets are valid that text is [end - start] characters long. *)
Theorem presidio_findings_text (env : Env) (request : AnalysisRequest)
    (r : PIIAnalysisResult) (f : PIIFinding) :
  analyze_with_presidio env request = Return r →
  f ∈ findings r →
  text f = str_slice (req_text request) (start f) (end_ f)
  ∧ (valid_offsets (req_text request) f →
     Z.of_nat (String.length (text f)) = end_ f - start f).
Proof.
  intros (_ & _ & results & _ & _ & _ & _ & Hfs)%analyze_with_presidio_inv Hf.
  rewrite Hfs in Hf. apply list_elem_of_fmap in Hf as (res & -> & _).
  split; [done|].
  intros (H0 & Hse & Hlen). apply str_slice_length; simpl in *; lia.
Qed.

Lemma presidio_findings_text_witness :
  text (presidio_finding scenario_text john_doe_result) = "John Doe"
  ∧ str_slice scenario_text 0 8 = "John Doe".
Proof.
  destruct (presidio_findings_text presidio_env scenario_request
              presidio_sample_result (presidio_finding scenario_text john_doe_result))
    as [Htext _]; [reflexivity|by left|].
  split; [reflexivity|]. symmetry. exact Htext.
Defined.

Example analyze_with_presidio_sample :
  analyze_with_presidio presidio_env scenario_request = Return presidio_sample_result.
Proof. reflexivity. Qed.

(** X13. The spaCy endpoint returns findings of allowed entity types
    only (the types of the request, or the seven default types when the
    request names none), and gives each the fixed confidence 0.8 for
    PERSON and ORG and 0.7 for any other type. *)
Theorem spacy_findings_shape (env : Env) (request : AnalysisRequest)
    (r : PIIAnalysisResult) (f : PIIFinding) :
  analyze_with_spacy env request = Return r →
  f ∈ findings r →
  entity_type f ∈ list_or (entities (config_of request)) spacy_default_entities
  ∧ score f = (if str_in (entity_type f) ["PERSON"; "ORG"] then 0.8 else 0.7)%float.
Proof.
  intros (nlp & ents & _ & _ & Hfs)%analyze_with_spacy_inv Hf.
  rewrite Hfs in Hf. apply list_elem_of_omap in Hf as (ent & _ & Hent).
  unfold spacy_finding in Hent.
  destruct (str_in (label_ ent) (list_or _ _)) eqn:Hin; [|done].
  destruct (confidence_threshold (config_of request) <=? _)%float; [|done].
  injection Hent as <-. simpl. split; [|done].
  unfold str_in in Hin. by apply bool_decide_eq_true in Hin.
Qed.

Lemma spacy_findings_shape_witness :
  entity_type spacy_sample_finding ∈ spacy_default_entities
  ∧ score spacy_sample_finding = 0.8%float.
Proof.
  apply (spacy_findings_shape spacy_env scenario_request spacy_sample_result
           spacy_sample_finding).
  - reflexivity.
  - by left.
Defined.

(** ** The hybrid response *)

Lemma consolidate_findings_sub l : consolidate_findings l ⊆+ l.
Proof.
  unfold consolidate_findings. destruct l as [|x l]; [done|].
  etrans; [apply consolidate_fold_submseteq|].
  rewrite app_nil_l. by rewrite (sorted_by_start_perm (x :: l)).
Qed.

(** Consolidated findings with non-empty spans follow one another
    without touching. *)
Lemma consolidate_findings_chain_valid (text : string) (l : list PIIFinding) :
  Forall (valid_offsets text) l →
  Forall (valid_offsets text) (consolidate_findings l)
  ∧ StronglySorted ends_before_next (consolidate_findings l).
Proof.
  intros Hvalid.
  assert (Forall (valid_offsets text) (consolidate_findings l)) as Hvalid'.
  { rewrite Forall_forall in Hvalid. apply Forall_forall. intros f Hf.
    eapply Hvalid, elem_of_submseteq; [done|apply consolidate_findings_sub]. }
  split; [done|].
  destruct (consolidate_findings_ok l) as [Hsorted Hapart].
  rewrite StronglySorted_lookup in Hsorted, Hapart. apply StronglySorted_lookup.
  intros i j a b Hij Hi Hj.
  specialize (Hsorted i j a b Hij Hi Hj). specialize (Hapart i j a b Hij Hi Hj).
  rewrite Forall_forall in Hvalid'.
  pose proof (Hvalid' a (list_elem_of_lookup_2 _ _ _ Hi)) as (_ & Ha & _).
  pose proof (Hvalid' b (list_elem_of_lookup_2 _ _ _ Hj)) as (_ & Hb & _).
  unfold apart, le_start, ends_before_next in *.
  apply overlaps_false in Hapart. lia.
Qed.

Lemma sorted_by_start_desc_reverse (c : list PIIFinding) :
  Forall (λ f, start f < end_ f) c →
  StronglySorted ends_before_next c →
  sorted_by_start_desc c = reverse c.
Proof.
  intros Hne Hchain.
  apply (StronglySorted_unique_strong (flip le_start)).
  - intros x1 x2 Hx1 Hx2 H12 H21.
    rewrite sorted_by_start_desc_perm in Hx1. rewrite reverse_Permutation in Hx2.
    apply list_elem_of_lookup in Hx1 as [i Hi].
    apply list_elem_of_lookup in Hx2 as [j Hj].
    rewrite StronglySorted_lookup in Hchain. rewrite Forall_forall in Hne.
    pose proof (Hne x1 (list_elem_of_lookup_2 _ _ _ Hi)) as Hne1.
    pose proof (Hne x2 (list_elem_of_lookup_2 _ _ _ Hj)) as Hne2.
    unfold flip, le_start, ends_before_next in *.
    destruct (lt_eq_lt_dec i j) as [[Hlt|Heq]|Hgt].
    + specialize (Hchain i j x1 x2 Hlt Hi Hj). lia.
    + subst j. congruence.
    + specialize (Hchain j i x2 x1 Hgt Hj Hi). lia.
  - apply sorted_by_start_desc_sorted.
  - apply StronglySorted_reverse.
    rewrite StronglySorted_lookup in Hchain. apply StronglySorted_lookup.
    intros i j a b Hij Hi Hj. rewrite Forall_forall in Hne.
    pose proof (Hne a (list_elem_of_lookup_2 _ _ _ Hi)) as Hne1.
    specialize (Hchain i j a b Hij Hi Hj).
    unfold le_start, ends_before_next in *. lia.
  - by rewrite sorted_by_start_desc_perm, reverse_Permutation.
Qed.

Lemma anonymize_chain (text : string) (c : list PIIFinding) :
  Forall (valid_offsets text) c →
  StronglySorted ends_before_next c →
  anonymize text c = render text 0 c.
Proof.
  intros Hvalid Hchain. unfold anonymize.
  rewrite sorted_by_start_desc_reverse, foldl_foldr_reverse, reverse_involutive.
  - destruct (anonymize_foldr_render text c 0) as [_ Hrender]; [lia|done| |done|done].
    eapply Forall_impl; [done|]. unfold valid_offsets. intros f. lia.
  - eapply Forall_impl; [done|]. unfold valid_offsets. intros f. lia.
  - done.
Qed.

(** X14. The hybrid response is consistent with itself: when the
    findings of the surviving engines have valid offsets for the request
    text, the returned findings have valid offsets too, each ends before
    the next starts, and the returned anonymized text is exactly the
    request text with each returned span replaced by its placeholder, in
    one pass from left to right. No disjointness is asked of the
    engines: consolidation provides it. *)
Theorem analyze_hybrid_rendered (env : Env) (request : AnalysisRequest) :
  Forall (valid_offsets (req_text request)) (surviving_findings env request) →
  ∃ r, analyze_hybrid env request = Return r
       ∧ Forall (valid_offsets (req_text request)) (findings r)
       ∧ StronglySorted ends_before_next (findings r)
       ∧ anonymized_text r = render (req_text request) 0 (findings r).
Proof.
  intros Hvalid.
  destruct (consolidate_findings_chain_valid _ _ Hvalid) as [Hvalid' Hchain].
  eexists. split_and!.
  - unfold analyze_hybrid. rewrite hybrid_collect_findings. reflexivity.
  - done.
  - done.
  - by apply anonymize_chain.
Qed.

Lemma analyze_hybrid_rendered_witness :
  ∃ r, analyze_hybrid two_engine_env johnson_request = Return r
       ∧ Forall (valid_offsets (req_text johnson_request)) (findings r)
       ∧ StronglySorted ends_before_next (findings r)
       ∧ anonymized_text r = render (req_text johnson_request) 0 (findings r).
Proof.
  apply analyze_hybrid_rendered.
  repeat constructor; simpl; lia.
Defined.

Example analyze_hybrid_two_engines :
  (anonymized_text <$> analyze_hybrid two_engine_env johnson_request)
  = Return "[PER]son works here".
Proof. reflexivity. Qed.

(** ** When the benchmark returns *)

Lemma not_engine_succeeds env key analyze request :
  ¬ engine_succeeds env key analyze request →
  loaded env key = false
  ∨ ∃ e, loaded env key = true
         ∧ analyze env {| req_text := bench_text request; req_config := None |} = Raise e.
Proof.
  unfold engine_succeeds. intros H.
  destruct (loaded env key); [|by left]. right.
  destruct (analyze env _) as [r|e]; [|by exists e].
  by destruct H.
Qed.

(** X15. The benchmark returns exactly when no benchmarked call returns
    (every engine is absent or fails). Its response then has an empty
    result map, the sentinel -1 as the time of each loaded engine, no
    time for an absent engine, and three zero counts. *)
Theorem benchmark_engines_returns (env : Env) (request : BenchmarkRequest) :
  (is_return (benchmark_engines env request) = true → no_engine_succeeds env request)
  ∧ (no_engine_succeeds env request →
     ∃ perf,
       benchmark_engines env request
       = Return {| engine_results := ∅; response_performance := perf |}
       ∧ perf !! "accuracy_comparison" = Some (Comparison zero_counts)
       ∧ perf !! "presidio_time" = sentinel_if_loaded env "presidio_analyzer"
       ∧ perf !! "spacy_time" = sentinel_if_loaded env "spacy"
       ∧ perf !! "transformers_time" = sentinel_if_loaded env "transformers_pipeline").
Proof.
  split.
  - intros Hret. unfold no_engine_succeeds. split_and!; intros Hs.
    + rewrite benchmark_engines_raises in Hret; [done|by left].
    + rewrite benchmark_engines_raises in Hret; [done|right; by left].
    + rewrite benchmark_engines_raises in Hret; [done|right; by right].
  - intros (Hp%not_engine_succeeds & Hs%not_engine_succeeds & Ht%not_engine_succeeds).
    unfold benchmark_engines, benchmark_collect, benchmark_engine, sentinel_if_loaded.
    destruct Hp as [->|(ep & -> & ->)], Hs as [->|(es & -> & ->)],
      Ht as [->|(et & -> & ->)];
      (eexists; split; [reflexivity|]); by simplify_map_eq.
Qed.

Lemma benchmark_engines_returns_witness :
  ∃ perf,
    benchmark_engines failing_spacy_env benchmark_request
    = Return {| engine_results := ∅; response_performance := perf |}
    ∧ perf !! "accuracy_comparison" = Some (Comparison zero_counts)
    ∧ perf !! "presidio_time" = None
    ∧ perf !! "spacy_time" = Some (Sentinel (-1))
    ∧ perf !! "transformers_time" = None.
Proof.
  apply (proj2 (benchmark_engines_returns failing_spacy_env benchmark_request)).
  split_and!; intros [Hloaded Hreturns]; vm_compute in Hloaded, Hreturns; done.
Defined.
